(** * The Twitter entrypoint of intentkit: polling, cursor, quota, dispatch

    A shallow embedding of [app/entrypoints/twitter.py].  One scheduler tick
    ([run_twitter_agents]) walks over the twitter-enabled agents; for each one
    it checks the quota, fetches the mentions since the stored cursor, writes
    the new cursor, lets the response engine answer every mention, posts the
    answers and finally charges the quota, all inside one [try] block per
    agent.

    The function is effectful: it talks to the database, to the platform and
    to the response engine, and each of those calls may raise.  The embedding
    threads an explicit [State] (the two persisted tables the function touches
    plus the trace of every call it made, with what the call gave back)
    through an exception monad.  What the outside world answers is read from
    an [Env] of oracles, which see the whole trace so far, so that an answer
    may depend on everything that happened before it. *)

From Stdlib Require Import Ascii.
From stdpp Require Import gmap strings list fin_maps pretty.

Local Open Scope string_scope.
Local Open Scope Z_scope.
Local Open Scope list_scope.

(** ** Data *)

(** [str(e)] of an exception caught by [except Exception as e].  Signals that
    do not derive from [Exception] are not part of the model. *)
Abbreviation Exn := string (only parsing).

(** Python dictionaries with string keys. *)
Abbreviation Config := (gmap string string) (only parsing).
Abbreviation Json := (gmap string (option string)) (only parsing).

(** Truthiness of a value that is [None] or a dictionary: [None] and [{}] are
    both false. *)
Definition truthy_dict {V : Type} (d : option (gmap string V)) : bool :=
  match d with
  | Some m => negb (bool_decide (size m = 0%nat))
  | None => false
  end.

(** Truthiness of a value that is [None] or a list. *)
Definition truthy_list {A : Type} (l : option (list A)) : bool :=
  match l with
  | Some (_ :: _) => true
  | _ => false
  end.

(** [dict.get(key)]: [None] when the key is missing, else the stored value
    (which may itself be [None]). *)
Definition dict_get (d : Json) (k : string) : option string :=
  match d !! k with
  | Some v => v
  | None => None
  end.

(** [sep.join(l)] *)
Fixpoint join (sep : string) (l : list string) : string :=
  match l with
  | [] => ""
  | [x] => x
  | x :: l' => x +:+ sep +:+ join sep l'
  end.

(** The one-character string ["\n"]. *)
Definition newline : string := String (Ascii.ascii_of_nat 10) "".

(** [app.models.agent.Agent], the three columns the entrypoint reads. *)
Record Agent := {
  agent_id : string;
  twitter_enabled : bool;
  twitter_config : option Config;
}.

(** [app.models.agent.AgentQuota], the twitter counters. *)
Record AgentQuota := {
  twitter_count_daily : Z;
  twitter_limit_daily : Z;
  twitter_count_total : Z;
  twitter_limit_total : Z;
}.

(** [app.models.agent.AgentPluginData]: a row keyed by (agent, plugin, key)
    holding a JSON object. *)
Record AgentPluginData := {
  pd_agent_id : string;
  pd_plugin : string;
  pd_key : string;
  pd_data : option Json;
}.

(** [tweepy.Client]: the five credentials it was built from. *)
Record Client := {
  bearer_token : option string;
  consumer_key : option string;
  consumer_secret : option string;
  access_token : option string;
  access_token_secret : option string;
}.

(** The user behind [client.get_me().data]. *)
Record User := { user_id : string }.

(** One mention, with the requested tweet fields.  Identifiers are kept as
    the text an f-string renders them to. *)
Record Tweet := {
  tweet_id : string;
  author_id : string;
  text : string;
  created_at : string;
}.

(** What [client.get_users_mentions] returns: [data] is [None] or a list of
    tweets, [meta] a dictionary. *)
Record Response := {
  resp_data : option (list Tweet);
  resp_meta : gmap string string;
}.

(** The keyword arguments of [client.get_users_mentions].  [start_time] is
    kept as an instant in milliseconds; its ISO rendering is left out. *)
Record MentionsQuery := {
  q_id : string;
  q_max_results : Z;
  q_since_id : option string;
  q_start_time : Z;
  q_tweet_fields : list string;
}.

Inductive Level := INFO | WARNING | ERROR.

(** ** Calls and their trace *)

(** The calls into the persistence layer, as the fault oracle sees them. *)
Inductive DbCall :=
| DbSelectAgents
| DbQuotaGet (a : string)
| DbHasTwitterQuota (a : string)
| DbPluginGet (a plugin key : string)
| DbPluginSave (pd : AgentPluginData)
| DbAddTwitter (a : string).

(** One entry of the trace: a call the entrypoint made, with its arguments
    and with what came back ([inl e] when it raised [e]). *)
Inductive Event :=
| ESelectAgents (r : Exn + list Agent)
| EQuotaGet (a : string) (r : Exn + AgentQuota)
| EHasTwitterQuota (a : string) (r : Exn + bool)
| ECreateClient (c : Client)
| EGetMe (c : Client) (r : Exn + option User)
| EPluginGet (a plugin key : string) (r : Exn + option AgentPluginData)
| EGetUsersMentions (c : Client) (q : MentionsQuery) (r : Exn + Response)
| EPluginSave (pd : AgentPluginData) (r : Exn + unit)
| EExecuteAgent (a txt thread_id : string) (r : Exn + list string)
| ECreateTweet (c : Client) (txt in_reply_to_tweet_id : string) (r : Exn + unit)
| EAddTwitter (a : string) (r : Exn + unit)
| ELog (lvl : Level) (msg : string).

(** The persisted tables the entrypoint reads and writes, and the trace. *)
Record State := {
  plugin_store : gmap (string * string * string) (option Json);
  quota_store : gmap string AgentQuota;
  trace : list Event;
}.

(** The outside world.  Every oracle is given the trace so far. *)
Record Env := {
  (** the persistence layer raising on a call *)
  db_fault : list Event → DbCall → option Exn;
  (** [datetime.now(tz=timezone.utc)], in milliseconds *)
  clock : list Event → Z;
  (** [client.get_me()] *)
  platform_get_me : list Event → Client → Exn + option User;
  (** [client.get_users_mentions(...)] *)
  platform_get_users_mentions :
    list Event → Client → MentionsQuery → Exn + Response;
  (** [execute_agent(agent.id, mention.text, thread_id)] *)
  engine_execute_agent :
    list Event → string → string → string → Exn + list string;
  (** [client.create_tweet(text=..., in_reply_to_tweet_id=...)] *)
  platform_create_tweet : list Event → Client → string → string → Exn + unit;
}.

(** ** The state and exception monad *)

Definition M (A : Type) : Type := State → (Exn + A) * State.

Definition ret {A : Type} (a : A) : M A := λ s, (inr a, s).

Definition raise {A : Type} (e : Exn) : M A := λ s, (inl e, s).

Definition bind {A B : Type} (m : M A) (k : A → M B) : M B :=
  λ s, match m s with
       | (inr a, s') => k a s'
       | (inl e, s') => (inl e, s')
       end.

Notation "x <- m ;; k" := (bind m (λ x, k))
  (at level 100, m at next level, right associativity).
Notation "m ;;; k" := (bind m (λ _, k))
  (at level 100, right associativity).

Definition record (ev : Event) (s : State) : State :=
  {| plugin_store := plugin_store s;
     quota_store := quota_store s;
     trace := trace s ++ [ev] |}.

Definition set_plugin_store (f : gmap (string * string * string) (option Json))
    (s : State) : State :=
  {| plugin_store := f; quota_store := quota_store s; trace := trace s |}.

Definition set_quota_store (f : gmap string AgentQuota) (s : State) : State :=
  {| plugin_store := plugin_store s; quota_store := f; trace := trace s |}.

(** A call whose answer is [r]: the answer goes to the trace and to the
    caller. *)
Definition answered {A : Type} (ev : Exn + A → Event) (r : Exn + A) : M A :=
  λ s, (r, record (ev r) s).

(** [logger.info], [logger.warning], [logger.error] *)
Definition log (lvl : Level) (msg : string) : M unit :=
  λ s, (inr tt, record (ELog lvl msg) s).

(** ** The collaborators *)

Section Entrypoint.

Variable env : Env.

(** Modelled from the spec: the quota record read for an account that has
    none in the table of [app.models.agent].  Every counter and every limit
    is zero, so the record has no quota left and the account fails closed. *)
Definition no_quota_record : AgentQuota :=
  {| twitter_count_daily := 0; twitter_limit_daily := 0;
     twitter_count_total := 0; twitter_limit_total := 0 |}.

(** Modelled from the spec: the quota record [AgentQuota.get] returns for an
    account, read from the table. *)
Definition loaded_quota (s : State) (a : string) : AgentQuota :=
  default no_quota_record (quota_store s !! a).

(** Modelled from the spec: [AgentQuota.get] of [app.models.agent], a module
    the entrypoint imports.  It loads the quota record of the account; an
    account without a record is treated as having no quota, without
    raising.  The call itself may raise, as any call into the database. *)
Definition AgentQuota_get (a : string) : M AgentQuota :=
  λ s, answered (EQuotaGet a)
         match db_fault env (trace s) (DbQuotaGet a) with
         | Some e => inl e
         | None => inr (loaded_quota s a)
         end s.

(** Modelled from the spec: what [AgentQuota.has_twitter_quota] answers, true
    iff both the daily and the total counter are strictly below their limit. *)
Definition quota_left (q : AgentQuota) : bool :=
  bool_decide (twitter_count_daily q < twitter_limit_daily q)
  && bool_decide (twitter_count_total q < twitter_limit_total q).

(** Modelled from the spec: [AgentQuota.has_twitter_quota] of
    [app.models.agent]; it has no side effect. *)
Definition has_twitter_quota (a : string) (q : AgentQuota) : M bool :=
  λ s, answered (EHasTwitterQuota a)
         match db_fault env (trace s) (DbHasTwitterQuota a) with
         | Some e => inl e
         | None => inr (quota_left q)
         end s.

(** Modelled from the spec: the record [AgentQuota.add_twitter] leaves
    behind, both counters one higher. *)
Definition consumed (q : AgentQuota) : AgentQuota :=
  {| twitter_count_daily := twitter_count_daily q + 1;
     twitter_limit_daily := twitter_limit_daily q;
     twitter_count_total := twitter_count_total q + 1;
     twitter_limit_total := twitter_limit_total q |}.

(** Modelled from the spec: [AgentQuota.add_twitter] of [app.models.agent].
    It increments the daily and the total counter of the loaded record by one
    and persists the record. *)
Definition add_twitter (a : string) (q : AgentQuota) : M unit :=
  λ s, match db_fault env (trace s) (DbAddTwitter a) with
       | Some e => (inl e, record (EAddTwitter a (inl e)) s)
       | None =>
           (inr tt,
            record (EAddTwitter a (inr tt))
              (set_quota_store (<[a := consumed q]> (quota_store s)) s))
       end.

(** Modelled from the spec: the row [AgentPluginData.get] returns, the one
    under (agent, plugin, key) in the table, or [None]. *)
Definition stored_row (s : State) (a plugin key : string)
    : option AgentPluginData :=
  match plugin_store s !! (a, plugin, key) with
  | Some d =>
      Some {| pd_agent_id := a; pd_plugin := plugin;
              pd_key := key; pd_data := d |}
  | None => None
  end.

(** Modelled from the spec: [AgentPluginData.get] of [app.models.agent], the
    read of the cursor store: the row under (agent, plugin, key), or [None]. *)
Definition AgentPluginData_get (a plugin key : string)
    : M (option AgentPluginData) :=
  λ s, answered (EPluginGet a plugin key)
         match db_fault env (trace s) (DbPluginGet a plugin key) with
         | Some e => inl e
         | None => inr (stored_row s a plugin key)
         end s.

(** Modelled from the spec: [AgentPluginData.save] of [app.models.agent], the
    write of the cursor store: an unconditional overwrite of the row under
    the record's key. *)
Definition AgentPluginData_save (pd : AgentPluginData) : M unit :=
  λ s, match db_fault env (trace s) (DbPluginSave pd) with
       | Some e => (inl e, record (EPluginSave pd (inl e)) s)
       | None =>
           (inr tt,
            record (EPluginSave pd (inr tt))
              (set_plugin_store
                 (<[(pd_agent_id pd, pd_plugin pd, pd_key pd) := pd_data pd]>
                    (plugin_store s)) s))
       end.

(** [create_twitter_client]: the client is built from five entries of the
    configuration, each read with [config.get]. *)
Definition create_twitter_client (config : Config) : Client :=
  {| bearer_token := config !! "bearer_token";
     consumer_key := config !! "consumer_key";
     consumer_secret := config !! "consumer_secret";
     access_token := config !! "access_token";
     access_token_secret := config !! "access_token_secret" |}.

Definition build_client (config : Config) : M Client :=
  λ s, (inr (create_twitter_client config),
        record (ECreateClient (create_twitter_client config)) s).

Definition get_me (client : Client) : M (option User) :=
  λ s, answered (EGetMe client) (platform_get_me env (trace s) client) s.

Definition get_users_mentions (client : Client) (q : MentionsQuery)
    : M Response :=
  λ s, answered (EGetUsersMentions client q)
         (platform_get_users_mentions env (trace s) client q) s.

Definition execute_agent (a txt thread_id : string) : M (list string) :=
  λ s, answered (EExecuteAgent a txt thread_id)
         (engine_execute_agent env (trace s) a txt thread_id) s.

Definition create_tweet (client : Client) (txt in_reply_to_tweet_id : string)
    : M unit :=
  λ s, answered (ECreateTweet client txt in_reply_to_tweet_id)
         (platform_create_tweet env (trace s) client txt in_reply_to_tweet_id)
         s.

(** [timedelta(days=1)], in milliseconds *)
Definition one_day : Z := 86400000.

Definition start_time_now : M Z := λ s, (inr (clock env (trace s) - one_day), s).

(** ** The log lines *)

Definition no_quota_msg (agent : Agent) (quota : AgentQuota) : string :=
  "Agent " +:+ agent_id agent +:+ " has no twitter quota. "
  +:+ "Daily: " +:+ pretty (twitter_count_daily quota) +:+ "/"
  +:+ pretty (twitter_limit_daily quota) +:+ ", "
  +:+ "Total: " +:+ pretty (twitter_count_total quota) +:+ "/"
  +:+ pretty (twitter_limit_total quota).

Definition no_config_msg (agent : Agent) : string :=
  "Agent " +:+ agent_id agent +:+ " has no valid twitter config".

Definition no_user_msg (agent : Agent) : string :=
  "Failed to get Twitter user info for agent " +:+ agent_id agent.

Definition no_mentions_msg (agent : Agent) : string :=
  "No new mentions for agent " +:+ agent_id agent.

Definition no_last_tweet_msg (agent : Agent) : string :=
  "Failed to get last tweet id for agent " +:+ agent_id agent.

Definition error_msg (agent : Agent) (e : Exn) : string :=
  "Error processing twitter mentions for agent " +:+ agent_id agent
  +:+ ": " +:+ e.

(** ** [run_twitter_agents] *)

(** The cursor an agent's row holds: [since_id] as lines 79 to 82 compute
    it. *)
Definition since_id_of (plugin_data : option AgentPluginData) : option string :=
  match plugin_data with
  | Some pd =>
      match pd_data pd with
      | Some d => if truthy_dict (Some d) then dict_get d "last_tweet_id" else None
      | None => None
      end
  | None => None
  end.

(** The row written at lines 103 to 108. *)
Definition cursor_row (agent : Agent) (last_tweet_id : option string)
    : AgentPluginData :=
  {| pd_agent_id := agent_id agent;
     pd_plugin := "twitter";
     pd_key := "entrypoint";
     pd_data := Some {[ "last_tweet_id" := last_tweet_id ]} |}.

(** The thread id of line 115. *)
Definition thread_id_of (agent : Agent) (mention : Tweet) : string :=
  agent_id agent +:+ "-twitter-" +:+ author_id mention.

(** Lines 114 to 121: the loop over the mentions. *)
Fixpoint process_mentions (agent : Agent) (client : Client)
    (mentions : list Tweet) : M unit :=
  match mentions with
  | [] => ret tt
  | mention :: rest =>
      let thread_id := thread_id_of agent mention in
      response <- execute_agent (agent_id agent) (text mention) thread_id ;;
      create_tweet client (join newline response) (tweet_id mention) ;;;
      process_mentions agent client rest
  end.

(** Lines 100 to 111: the cursor is written when [mentions.meta] is truthy,
    else the cycle raises. *)
Definition update_last_tweet_id (agent : Agent) (mentions : Response) : M unit :=
  if truthy_dict (Some (resp_meta mentions)) then
    let last_tweet_id := resp_meta mentions !! "newest_id" in
    AgentPluginData_save (cursor_row agent last_tweet_id)
  else
    raise (no_last_tweet_msg agent).

(** Lines 53 to 124: the body of the [try] block.  A [continue] ends the body
    without an exception. *)
Definition agent_body (agent : Agent) : M unit :=
  quota <- AgentQuota_get (agent_id agent) ;;
  has <- has_twitter_quota (agent_id agent) quota ;;
  if negb has then log WARNING (no_quota_msg agent quota) else
  match twitter_config agent with
  | None => log WARNING (no_config_msg agent)
  | Some config =>
  if negb (truthy_dict (Some config)) then log WARNING (no_config_msg agent) else
  client <- build_client config ;;
  me <- get_me client ;;
  match me with
  | None => log ERROR (no_user_msg agent)
  | Some me_data =>
  plugin_data <- AgentPluginData_get (agent_id agent) "twitter" "entrypoint" ;;
  let since_id := since_id_of plugin_data in
  start_time <- start_time_now ;;
  mentions <- get_users_mentions client
                {| q_id := user_id me_data;
                   q_max_results := 10;
                   q_since_id := since_id;
                   q_start_time := start_time;
                   q_tweet_fields := ["created_at"; "author_id"; "text"] |} ;;
  if negb (truthy_list (resp_data mentions))
  then log INFO (no_mentions_msg agent) else
  update_last_tweet_id agent mentions ;;;
  process_mentions agent client (default [] (resp_data mentions)) ;;;
  add_twitter (agent_id agent) quota
  end
  end.

(** Lines 51 to 130: one turn of the loop over the agents, the [try] block
    with its handler. *)
Definition process_agent (agent : Agent) (s : State) : State :=
  match agent_body agent s with
  | (inr _, s') => s'
  | (inl e, s') => record (ELog ERROR (error_msg agent e)) s'
  end.

Fixpoint for_each_agent (agents : list Agent) (s : State) : State :=
  match agents with
  | [] => s
  | agent :: rest => for_each_agent rest (process_agent agent s)
  end.

(** Lines 44 to 49: the query for the agents with twitter enabled and a
    configuration present.  It runs outside the [try] block. *)
Definition select_agents (table : list Agent) : M (list Agent) :=
  λ s, answered ESelectAgents
         match db_fault env (trace s) DbSelectAgents with
         | Some e => inl e
         | None =>
             inr (List.filter
                    (λ a, twitter_enabled a
                          && bool_decide (is_Some (twitter_config a)))
                    table)
         end s.

(** Lines 38 to 130. *)
Definition run_twitter_agents (table : list Agent) : M unit :=
  agents <- select_agents table ;;
  λ s, (inr tt, for_each_agent agents s).

End Entrypoint.

(** ** Reading a trace *)

(** The events a run added to the trace: what [s'] has beyond [s]. *)
Definition events_since (s s' : State) : list Event :=
  drop (length (trace s)) (trace s').

(** [s] with more events in its trace and the tables as they were. *)
Definition extend (s : State) (evs : list Event) : State :=
  {| plugin_store := plugin_store s;
     quota_store := quota_store s;
     trace := trace s ++ evs |}.

(** The key of an agent's cursor row. *)
Definition cursor_key (agent : Agent) : string * string * string :=
  (agent_id agent, "twitter", "entrypoint").

(** The cursor an agent's row holds in a state: what the next fetch of that
    agent passes as [since_id]. *)
Definition cursor (s : State) (agent : Agent) : option string :=
  since_id_of (stored_row s (agent_id agent) "twitter" "entrypoint").

(** What one answered mention leaves in the trace: the engine is called with
    the mention's text and the thread id, and the lines it returned go out,
    joined with line breaks, as a reply to the mention. *)
Definition reply_events (agent : Agent) (client : Client)
    (mention : Tweet) (reply : list string) : list Event :=
  [ EExecuteAgent (agent_id agent) (text mention)
      (agent_id agent +:+ "-twitter-" +:+ author_id mention) (inr reply);
    ECreateTweet client (join newline reply) (tweet_id mention) (inr tt) ].

Definition is_engine_call (ev : Event) : bool :=
  match ev with EExecuteAgent _ _ _ _ => true | _ => false end.

Definition is_reply_post (ev : Event) : bool :=
  match ev with ECreateTweet _ _ _ _ => true | _ => false end.

Definition is_quota_consumption (ev : Event) : bool :=
  match ev with EAddTwitter _ _ => true | _ => false end.

Definition is_cursor_write (ev : Event) : bool :=
  match ev with EPluginSave _ _ => true | _ => false end.

Definition is_fetch_answer (ev : Event) : bool :=
  match ev with EGetUsersMentions _ _ (inr _) => true | _ => false end.

Definition is_error_log (ev : Event) : bool :=
  match ev with ELog ERROR _ => true | _ => false end.

(** The events of the loop over the mentions are calls to the engine and
    reply posts. *)
Definition is_downstream (ev : Event) : bool :=
  is_engine_call ev || is_reply_post ev.

(** A call to the response engine or a reply post that raised. *)
Definition downstream_failure (ev : Event) : option Exn :=
  match ev with
  | EExecuteAgent _ _ _ (inl e) => Some e
  | ECreateTweet _ _ _ (inl e) => Some e
  | _ => None
  end.

Definition has_failed (ev : Event) : bool :=
  match downstream_failure ev with Some _ => true | None => false end.

(** The events a cycle makes only once it got an answer to its fetch. *)
Definition is_cycle_work (ev : Event) : bool :=
  is_fetch_answer ev || is_cursor_write ev || is_downstream ev
  || is_quota_consumption ev.

(** How many events of a trace have a property. *)
Definition count (P : Event → bool) (evs : list Event) : nat :=
  length (List.filter P evs).

(** What the handler of the [try] block adds to the trace. *)
Definition handler_log (agent : Agent) (r : Exn + unit) : list Event :=
  match r with
  | inl e => [ELog ERROR (error_msg agent e)]
  | inr _ => []
  end.

(** ** The shape of one cycle *)

(** How the loop over the mentions stopped after [k] answered mentions: at
    the end of the list, or at mention [k] with the engine or the reply post
    raising. *)
Inductive loop_end (agent : Agent) (client : Client) (mentions : list Tweet)
    (k : nat) : Exn + unit → list Event → Prop :=
| loop_done :
    k = length mentions → loop_end agent client mentions k (inr tt) []
| loop_engine_raised mention e :
    mentions !! k = Some mention →
    loop_end agent client mentions k (inl e)
      [ EExecuteAgent (agent_id agent) (text mention)
          (agent_id agent +:+ "-twitter-" +:+ author_id mention) (inl e) ]
| loop_post_raised mention reply e :
    mentions !! k = Some mention →
    loop_end agent client mentions k (inl e)
      [ EExecuteAgent (agent_id agent) (text mention)
          (agent_id agent +:+ "-twitter-" +:+ author_id mention) (inr reply);
        ECreateTweet client (join newline reply) (tweet_id mention) (inl e) ].

Section Shape.

Variables (agent : Agent) (s : State).

(** What a cycle does once the fetch has answered [mentions]: how it ends,
    the two tables it leaves and the events it adds. *)
Inductive after_fetch (client : Client) (mentions : Response)
    : Exn + unit →
      gmap (string * string * string) (option Json) →
      gmap string AgentQuota → list Event → Prop :=
| fetched_nothing :
    truthy_list (resp_data mentions) = false →
    after_fetch client mentions (inr tt) (plugin_store s) (quota_store s)
      [ELog INFO (no_mentions_msg agent)]
| fetched_no_meta :
    truthy_list (resp_data mentions) = true →
    truthy_dict (Some (resp_meta mentions)) = false →
    after_fetch client mentions (inl (no_last_tweet_msg agent))
      (plugin_store s) (quota_store s) []
| cursor_write_raised e :
    truthy_list (resp_data mentions) = true →
    truthy_dict (Some (resp_meta mentions)) = true →
    after_fetch client mentions (inl e) (plugin_store s) (quota_store s)
      [EPluginSave (cursor_row agent (resp_meta mentions !! "newest_id"))
         (inl e)]
| loop_raised replies tail e :
    truthy_list (resp_data mentions) = true →
    truthy_dict (Some (resp_meta mentions)) = true →
    loop_end agent client (default [] (resp_data mentions)) (length replies)
      (inl e) tail →
    after_fetch client mentions (inl e)
      (<[cursor_key agent :=
           Some {[ "last_tweet_id" := resp_meta mentions !! "newest_id" ]}]>
         (plugin_store s))
      (quota_store s)
      (EPluginSave (cursor_row agent (resp_meta mentions !! "newest_id"))
         (inr tt)
       :: concat (zip_with (reply_events agent client)
                    (default [] (resp_data mentions)) replies)
       ++ tail)
| consumption_raised replies e :
    truthy_list (resp_data mentions) = true →
    truthy_dict (Some (resp_meta mentions)) = true →
    length replies = length (default [] (resp_data mentions)) →
    after_fetch client mentions (inl e)
      (<[cursor_key agent :=
           Some {[ "last_tweet_id" := resp_meta mentions !! "newest_id" ]}]>
         (plugin_store s))
      (quota_store s)
      (EPluginSave (cursor_row agent (resp_meta mentions !! "newest_id"))
         (inr tt)
       :: concat (zip_with (reply_events agent client)
                    (default [] (resp_data mentions)) replies)
       ++ [EAddTwitter (agent_id agent) (inl e)])
| cycle_completed replies :
    truthy_list (resp_data mentions) = true →
    truthy_dict (Some (resp_meta mentions)) = true →
    length replies = length (default [] (resp_data mentions)) →
    after_fetch client mentions (inr tt)
      (<[cursor_key agent :=
           Some {[ "last_tweet_id" := resp_meta mentions !! "newest_id" ]}]>
         (plugin_store s))
      (<[agent_id agent := consumed (loaded_quota s (agent_id agent))]>
         (quota_store s))
      (EPluginSave (cursor_row agent (resp_meta mentions !! "newest_id"))
         (inr tt)
       :: concat (zip_with (reply_events agent client)
                    (default [] (resp_data mentions)) replies)
       ++ [EAddTwitter (agent_id agent) (inr tt)]).

(** A cycle starts by loading the quota record.  It either stops before its
    fetch is answered, touching no table, or goes through the same five
    calls to the fetch and on from there as [after_fetch] says. *)
Inductive cycle_shape
    : Exn + unit →
      gmap (string * string * string) (option Json) →
      gmap string AgentQuota → list Event → Prop :=
| cycle_stopped_early r r0 evs :
    Forall (λ ev, is_cycle_work ev = false) evs →
    cycle_shape r (plugin_store s) (quota_store s)
      (EQuotaGet (agent_id agent) r0 :: evs)
| cycle_fetched config me_data start_time mentions r ps qs rest :
    twitter_config agent = Some config →
    quota_left (loaded_quota s (agent_id agent)) = true →
    after_fetch (create_twitter_client config) mentions r ps qs rest →
    cycle_shape r ps qs
      (EQuotaGet (agent_id agent) (inr (loaded_quota s (agent_id agent)))
       :: EHasTwitterQuota (agent_id agent) (inr true)
       :: ECreateClient (create_twitter_client config)
       :: EGetMe (create_twitter_client config) (inr (Some me_data))
       :: EPluginGet (agent_id agent) "twitter" "entrypoint"
            (inr (stored_row s (agent_id agent) "twitter" "entrypoint"))
       :: EGetUsersMentions (create_twitter_client config)
            {| q_id := user_id me_data;
               q_max_results := 10;
               q_since_id := cursor s agent;
               q_start_time := start_time;
               q_tweet_fields := ["created_at"; "author_id"; "text"] |}
            (inr mentions)
       :: rest).

End Shape.

(** Symbolic execution of the body of the [try] block: unfold the monad and
    the calls, and split on what each call answered. *)
Ltac exec_red H :=
  cbv beta iota zeta delta
    [agent_body bind AgentQuota_get has_twitter_quota build_client get_me
     AgentPluginData_get start_time_now get_users_mentions
     update_last_tweet_id AgentPluginData_save add_twitter log raise ret
     answered negb] in H.

Ltac exec_in H :=
  exec_red H;
  repeat (match type of H with
          | context [match ?x with _ => _ end] =>
              lazymatch x with
              | context [match _ with _ => _ end] => fail
              | _ => destruct x eqn:?
              end
          end; exec_red H).

Ltac norm_state :=
  cbn [trace plugin_store quota_store record extend set_plugin_store
       set_quota_store fst snd pd_agent_id pd_plugin pd_key pd_data
       cursor_row];
  rewrite <- ?app_assoc; cbn [app].

(** After an inversion of [after_fetch]: put what it says about the result
    and the tables of the turn into the goal and the hypotheses. *)
Ltac settle_turn :=
  repeat match goal with
    | H : inr _ = (agent_body _ _ _).1 |- _ => rewrite <- H in *; clear H
    | H : inl _ = (agent_body _ _ _).1 |- _ => rewrite <- H in *; clear H
    | H : _ = plugin_store (process_agent _ _ _) |- _ => symmetry in H
    | H : _ = quota_store (process_agent _ _ _) |- _ => symmetry in H
    end.

(** ** Scenarios *)

Module Scenario.

Definition tweet1 : Tweet :=
  {| tweet_id := "1000"; author_id := "7"; text := "hello";
     created_at := "2024-05-01T10:00:00.000Z" |}.

Definition tweet2 : Tweet :=
  {| tweet_id := "1001"; author_id := "8"; text := "are you there";
     created_at := "2024-05-01T10:00:30.000Z" |}.

(** Account A of the spec's scenario, and two more accounts. *)
Definition agentA : Agent :=
  {| agent_id := "A"; twitter_enabled := true;
     twitter_config := Some {[ "bearer_token" := "secret" ]} |}.

Definition agentB : Agent :=
  {| agent_id := "B"; twitter_enabled := true;
     twitter_config := Some {[ "bearer_token" := "secret-b" ]} |}.

Definition agentC : Agent :=
  {| agent_id := "C"; twitter_enabled := true;
     twitter_config := Some {[ "bearer_token" := "secret-c" ]} |}.

Definition quota_of (daily total : Z) : AgentQuota :=
  {| twitter_count_daily := daily; twitter_limit_daily := 5;
     twitter_count_total := total; twitter_limit_total := 50 |}.

(** No cursor yet; A and C have used nothing, B has used up its day. *)
Definition fresh : State :=
  {| plugin_store := ∅;
     quota_store :=
       {[ "A" := quota_of 0 0; "B" := quota_of 5 5; "C" := quota_of 0 0 ]};
     trace := [] |}.

(** [fresh] with a cursor stored for A. *)
Definition with_cursor : State :=
  {| plugin_store :=
       {[ ("A", "twitter", "entrypoint")
          := Some {[ "last_tweet_id" := Some "900" ]} ]};
     quota_store := quota_store fresh;
     trace := [] |}.

(** A world where nothing raises, the platform answers every fetch with
    [fetch] and the engine answers two lines. *)
Definition world (fetch : Response) : Env :=
  {| db_fault := λ _ _, None;
     clock := λ _, 1714557690000;
     platform_get_me := λ _ _, inr (Some {| user_id := "42" |});
     platform_get_users_mentions := λ _ _ _, inr fetch;
     engine_execute_agent := λ _ _ txt _, inr ["You said: " +:+ txt; "Bye"];
     platform_create_tweet := λ _ _ _ _, inr tt |}.

Definition two_mentions : Response :=
  {| resp_data := Some [tweet1; tweet2];
     resp_meta := {[ "newest_id" := "1001"; "result_count" := "2" ]} |}.

Definition no_mentions : Response :=
  {| resp_data := None; resp_meta := {[ "result_count" := "0" ]} |}.

(** Mentions whose metadata is there but has no newest id. *)
Definition no_marker : Response :=
  {| resp_data := Some [tweet1]; resp_meta := {[ "result_count" := "1" ]} |}.

(** Mentions with no metadata at all. *)
Definition no_meta : Response :=
  {| resp_data := Some [tweet1]; resp_meta := ∅ |}.

(** The platform refuses every reply post. *)
Definition post_refused : Env :=
  {| db_fault := db_fault (world two_mentions);
     clock := clock (world two_mentions);
     platform_get_me := platform_get_me (world two_mentions);
     platform_get_users_mentions :=
       platform_get_users_mentions (world two_mentions);
     engine_execute_agent := engine_execute_agent (world two_mentions);
     platform_create_tweet := λ _ _ _ _, inl "403 Forbidden" |}.

(** The database raises when the quota record of an agent is loaded. *)
Definition quota_table_down : Env :=
  {| db_fault := λ _ c,
       match c with DbQuotaGet "A" => Some "connection lost" | _ => None end;
     clock := clock (world two_mentions);
     platform_get_me := platform_get_me (world two_mentions);
     platform_get_users_mentions :=
       platform_get_users_mentions (world two_mentions);
     engine_execute_agent := engine_execute_agent (world two_mentions);
     platform_create_tweet := platform_create_tweet (world two_mentions) |}.

End Scenario.

(** ** Further vocabulary for traces *)

(** The account a call into the database or into the engine is made for. *)
Definition event_account (ev : Event) : option string :=
  match ev with
  | EQuotaGet a _ => Some a
  | EHasTwitterQuota a _ => Some a
  | EPluginGet a _ _ _ => Some a
  | EPluginSave pd _ => Some (pd_agent_id pd)
  | EExecuteAgent a _ _ _ => Some a
  | EAddTwitter a _ => Some a
  | _ => None
  end.

(** The client a call to the platform is made with. *)
Definition event_client (ev : Event) : option Client :=
  match ev with
  | ECreateClient c => Some c
  | EGetMe c _ => Some c
  | EGetUsersMentions c _ _ => Some c
  | ECreateTweet c _ _ _ => Some c
  | _ => None
  end.

(** A fetch, answered or not. *)
Definition is_fetch (ev : Event) : bool :=
  match ev with EGetUsersMentions _ _ _ => true | _ => false end.

Definition is_log (ev : Event) : bool :=
  match ev with ELog _ _ => true | _ => false end.

(** The five calls of a cycle that got as far as its fetch. *)
Definition before_fetch (agent : Agent) (s : State) (config : Config)
    (me_data : User) : list Event :=
  [ EQuotaGet (agent_id agent) (inr (loaded_quota s (agent_id agent)));
    EHasTwitterQuota (agent_id agent) (inr true);
    ECreateClient (create_twitter_client config);
    EGetMe (create_twitter_client config) (inr (Some me_data));
    EPluginGet (agent_id agent) "twitter" "entrypoint"
      (inr (stored_row s (agent_id agent) "twitter" "entrypoint")) ].

(** The keyword arguments of the fetch of such a cycle, as lines 79 to 94
    compute them. *)
Definition fetch_query (env : Env) (agent : Agent) (s : State)
    (config : Config) (me_data : User) : MentionsQuery :=
  {| q_id := user_id me_data;
     q_max_results := 10;
     q_since_id := cursor s agent;
     q_start_time :=
       clock env (trace s ++ before_fetch agent s config me_data) - one_day;
     q_tweet_fields := ["created_at"; "author_id"; "text"] |}.

(** The ways a cycle ends before its fetch is answered, each with the exact
    events it leaves. *)
Inductive early_stop (env : Env) (agent : Agent) (s : State)
    : Exn + unit → list Event → Prop :=
| quota_load_raised e :
    early_stop env agent s (inl e) [EQuotaGet (agent_id agent) (inl e)]
| quota_check_raised e :
    early_stop env agent s (inl e)
      [ EQuotaGet (agent_id agent) (inr (loaded_quota s (agent_id agent)));
        EHasTwitterQuota (agent_id agent) (inl e) ]
| quota_used_up :
    quota_left (loaded_quota s (agent_id agent)) = false →
    early_stop env agent s (inr tt)
      [ EQuotaGet (agent_id agent) (inr (loaded_quota s (agent_id agent)));
        EHasTwitterQuota (agent_id agent) (inr false);
        ELog WARNING
          (no_quota_msg agent (loaded_quota s (agent_id agent))) ]
| config_not_valid :
    quota_left (loaded_quota s (agent_id agent)) = true →
    truthy_dict (twitter_config agent) = false →
    early_stop env agent s (inr tt)
      [ EQuotaGet (agent_id agent) (inr (loaded_quota s (agent_id agent)));
        EHasTwitterQuota (agent_id agent) (inr true);
        ELog WARNING (no_config_msg agent) ]
| identity_raised config e :
    twitter_config agent = Some config →
    truthy_dict (Some config) = true →
    early_stop env agent s (inl e)
      [ EQuotaGet (agent_id agent) (inr (loaded_quota s (agent_id agent)));
        EHasTwitterQuota (agent_id agent) (inr true);
        ECreateClient (create_twitter_client config);
        EGetMe (create_twitter_client config) (inl e) ]
| identity_unknown config :
    twitter_config agent = Some config →
    truthy_dict (Some config) = true →
    early_stop env agent s (inr tt)
      [ EQuotaGet (agent_id agent) (inr (loaded_quota s (agent_id agent)));
        EHasTwitterQuota (agent_id agent) (inr true);
        ECreateClient (create_twitter_client config);
        EGetMe (create_twitter_client config) (inr None);
        ELog ERROR (no_user_msg agent) ]
| cursor_read_raised config me_data e :
    twitter_config agent = Some config →
    truthy_dict (Some config) = true →
    early_stop env agent s (inl e)
      [ EQuotaGet (agent_id agent) (inr (loaded_quota s (agent_id agent)));
        EHasTwitterQuota (agent_id agent) (inr true);
        ECreateClient (create_twitter_client config);
        EGetMe (create_twitter_client config) (inr (Some me_data));
        EPluginGet (agent_id agent) "twitter" "entrypoint" (inl e) ]
| fetch_raised config me_data e :
    twitter_config agent = Some config →
    truthy_dict (Some config) = true →
    early_stop env agent s (inl e)
      (before_fetch agent s config me_data
       ++ [ EGetUsersMentions (create_twitter_client config)
              (fetch_query env agent s config me_data) (inl e) ]).

(** The kinds of events a cycle leaves after its fetch was answered. *)
Definition is_late (ev : Event) : bool :=
  is_cursor_write ev || is_downstream ev || is_quota_consumption ev
  || is_log ev.

(** Case analysis on where an event sits in an explicit list. *)
Ltac in_cases H :=
  repeat first
    [ apply elem_of_nil in H; contradiction
    | apply elem_of_app in H as [H|H]
    | apply elem_of_cons in H as [H|H] ];
  try discriminate H.

(** A call made for the turn's own account: a database or engine call names
    the account of the turn, and a platform call uses the client built from
    that account's configuration. *)
Definition own_call (agent : Agent) (ev : Event) : Prop :=
  (∀ a, event_account ev = Some a → a = agent_id agent) ∧
  (∀ c, event_client ev = Some c →
        ∃ config,
          twitter_config agent = Some config ∧
          truthy_dict (Some config) = true ∧
          c = create_twitter_client config).

(** Settles [own_call] for an event that is written out. *)
Ltac own_event :=
  split; simpl; intros ? ?; simplify_eq;
  first [ done
        | eexists; split; [eassumption|split; [assumption|reflexivity]] ].

(** Both counters of a quota record are within their limits. *)
Definition within_limits (q : AgentQuota) : Prop :=
  twitter_count_daily q ≤ twitter_limit_daily q ∧
  twitter_count_total q ≤ twitter_limit_total q.

(** ** Further scenarios *)

Module Cases.

(** An account whose configuration is an empty dictionary. *)
Definition agentD : Agent :=
  {| agent_id := "D"; twitter_enabled := true; twitter_config := Some ∅ |}.

(** An account with twitter switched off. *)
Definition agentE : Agent :=
  {| agent_id := "E"; twitter_enabled := false;
     twitter_config := Some {[ "bearer_token" := "secret-e" ]} |}.

(** [Scenario.fresh] with quota records for D and E as well. *)
Definition fresh : State :=
  {| plugin_store := ∅;
     quota_store :=
       {[ "A" := Scenario.quota_of 0 0; "B" := Scenario.quota_of 5 5;
          "C" := Scenario.quota_of 0 0; "D" := Scenario.quota_of 0 0;
          "E" := Scenario.quota_of 0 0 ]};
     trace := [] |}.

(** The platform does not know who the account is. *)
Definition nobody : Env :=
  {| db_fault := λ _ _, None;
     clock := λ _, 1714557690000;
     platform_get_me := λ _ _, inr None;
     platform_get_users_mentions := λ _ _ _, inr Scenario.two_mentions;
     engine_execute_agent := λ _ _ txt _, inr ["You said: " +:+ txt; "Bye"];
     platform_create_tweet := λ _ _ _ _, inr tt |}.

(** A world like [Scenario.world Scenario.two_mentions] in which the database
    raises on the calls [broken] picks. *)
Definition broken_db (broken : DbCall → bool) : Env :=
  {| db_fault := λ _ c, if broken c then Some "database is locked" else None;
     clock := λ _, 1714557690000;
     platform_get_me := λ _ _, inr (Some {| user_id := "42" |});
     platform_get_users_mentions := λ _ _ _, inr Scenario.two_mentions;
     engine_execute_agent := λ _ _ txt _, inr ["You said: " +:+ txt; "Bye"];
     platform_create_tweet := λ _ _ _ _, inr tt |}.

Definition is_save (c : DbCall) : bool :=
  match c with DbPluginSave _ => true | _ => false end.

Definition is_add (c : DbCall) : bool :=
  match c with DbAddTwitter _ => true | _ => false end.

Definition is_select (c : DbCall) : bool :=
  match c with DbSelectAgents => true | _ => false end.

End Cases.

(** ** Basic facts *)

Lemma extend_nil s : extend s [] = s.
Proof. destruct s. unfold extend. simpl. by rewrite app_nil_r. Qed.

Lemma extend_extend s l1 l2 : extend (extend s l1) l2 = extend s (l1 ++ l2).
Proof. unfold extend. simpl. by rewrite app_assoc. Qed.

Lemma record_extend ev s : record ev s = extend s [ev].
Proof. reflexivity. Qed.

Lemma events_since_extend s evs : events_since s (extend s evs) = evs.
Proof. unfold events_since, extend. simpl. apply drop_app_length. Qed.

Lemma events_since_state s ps qs evs :
  events_since s {| plugin_store := ps; quota_store := qs;
                    trace := trace s ++ evs |} = evs.
Proof. unfold events_since. simpl. apply drop_app_length. Qed.

Lemma stored_row_record ev s a plugin key :
  stored_row (record ev s) a plugin key = stored_row s a plugin key.
Proof. reflexivity. Qed.

(** An event with property [P] that sits in [l1 ++ l2] sits in [l2] when
    nothing in [l1] has the property. *)
Lemma split_past (P : Event → bool) l1 l2 pre x post :
  Forall (λ ev, P ev = false) l1 →
  P x = true →
  l1 ++ l2 = pre ++ x :: post →
  ∃ pre', pre = l1 ++ pre' ∧ l2 = pre' ++ x :: post.
Proof.
  revert pre. induction l1 as [|a l1 IH]; intros pre Hall Hx Heq.
  - exists pre. auto.
  - inversion Hall as [|? ? Ha Hl1]; subst.
    destruct pre as [|b pre]; simpl in Heq; inversion Heq; subst.
    + congruence.
    + destruct (IH pre Hl1 Hx) as (pre' & -> & ->); [assumption|].
      exists pre'. auto.
Qed.

(** The same, for an event that sits in [l1] when nothing in [l2] has the
    property. *)
Lemma split_before (P : Event → bool) l1 l2 pre x post :
  Forall (λ ev, P ev = false) l2 →
  P x = true →
  l1 ++ l2 = pre ++ x :: post →
  ∃ post', post = post' ++ l2 ∧ l1 = pre ++ x :: post'.
Proof.
  revert pre. induction l1 as [|a l1 IH]; intros pre Hall Hx Heq.
  - simpl in Heq. subst l2. apply Forall_app in Hall as [_ Hall].
    inversion Hall; congruence.
  - destruct pre as [|b pre]; simpl in Heq; inversion Heq; subst.
    + exists l1. auto.
    + destruct (IH pre Hall Hx) as (post' & -> & ->); [assumption|].
      exists post'. auto.
Qed.

Lemma count_app P l1 l2 : count P (l1 ++ l2) = (count P l1 + count P l2)%nat.
Proof. unfold count. by rewrite List.filter_app, length_app. Qed.

Lemma count_cons P x l :
  count P (x :: l) = ((if P x then 1 else 0) + count P l)%nat.
Proof. unfold count. simpl. by destruct (P x). Qed.

Lemma count_none P l : Forall (λ ev, P ev = false) l → count P l = 0%nat.
Proof.
  unfold count. induction 1 as [|x l Hx _ IH]; simpl; [done|]. by rewrite Hx.
Qed.

Lemma count_all P l : Forall (λ ev, P ev = true) l → count P l = length l.
Proof.
  unfold count. induction 1 as [|x l Hx _ IH]; simpl; [done|].
  rewrite Hx. simpl. by rewrite IH.
Qed.

(** ** The loop over the mentions *)

(** The loop answers a prefix of the mentions, in order, and stops as
    [loop_end] says; it touches neither table. *)
Lemma process_mentions_run env agent client mentions s :
  ∃ replies r tail,
    (length replies ≤ length mentions)%nat ∧
    process_mentions env agent client mentions s
    = (r, extend s (concat (zip_with (reply_events agent client)
                                     mentions replies) ++ tail)) ∧
    loop_end agent client mentions (length replies) r tail.
Proof.
  revert s. induction mentions as [|m ms IH]; intros s.
  - exists [], (inr tt), []. simpl. split; [lia|]. split.
    + unfold ret. by rewrite extend_nil.
    + by constructor.
  - simpl. unfold bind at 1, execute_agent at 1, answered at 1.
    destruct (engine_execute_agent env (trace s) (agent_id agent) (text m)
                (thread_id_of agent m)) as [e|reply] eqn:Heng.
    + exists [], (inl e), [EExecuteAgent (agent_id agent) (text m)
                             (thread_id_of agent m) (inl e)].
      simpl. split; [lia|]. split; [reflexivity|].
      by eapply loop_engine_raised.
    + unfold bind at 1, create_tweet at 1, answered at 1.
      destruct (platform_create_tweet env (trace (record _ s)) client
                  (join newline reply) (tweet_id m)) as [e|[]] eqn:Hpost.
      * exists [], (inl e),
          [EExecuteAgent (agent_id agent) (text m) (thread_id_of agent m)
             (inr reply);
           ECreateTweet client (join newline reply) (tweet_id m) (inl e)].
        simpl. split; [lia|]. split.
        { rewrite !record_extend, extend_extend. reflexivity. }
        by eapply loop_post_raised.
      * destruct (IH (record (ECreateTweet client (join newline reply)
                                (tweet_id m) (inr tt))
                        (record (EExecuteAgent (agent_id agent) (text m)
                                   (thread_id_of agent m) (inr reply)) s)))
          as (replies & r & tail & Hlen & Hrun & Hend).
        exists (reply :: replies), r, tail. simpl. split; [lia|]. split.
        { rewrite Hrun, !record_extend, !extend_extend. reflexivity. }
        inversion Hend; subst; econstructor; simpl; eauto.
Qed.

Lemma reply_events_downstream agent client mentions
    (replies : list (list string)) :
  Forall (λ ev, is_downstream ev = true ∧ has_failed ev = false)
    (concat (zip_with (reply_events agent client) mentions replies)).
Proof.
  revert replies. induction mentions as [|m ms IH]; intros [|r rs]; simpl;
    try constructor; auto.
Qed.

Lemma replies_are_downstream agent client mentions
    (replies : list (list string)) :
  Forall (λ ev, is_downstream ev = true)
    (concat (zip_with (reply_events agent client) mentions replies)).
Proof.
  eapply Forall_impl; [apply reply_events_downstream|]. by intros ? [? ?].
Qed.

Lemma replies_do_not_fail agent client mentions
    (replies : list (list string)) :
  Forall (λ ev, has_failed ev = false)
    (concat (zip_with (reply_events agent client) mentions replies)).
Proof.
  eapply Forall_impl; [apply reply_events_downstream|]. by intros ? [? ?].
Qed.

Lemma replies_engine_calls agent client mentions
    (replies : list (list string)) :
  length replies = length mentions →
  count is_engine_call
    (concat (zip_with (reply_events agent client) mentions replies))
  = length mentions.
Proof.
  revert replies. induction mentions as [|m ms IH]; intros [|r rs] Hlen;
    simpl in *; try done.
  unfold count in *. simpl. f_equal. apply IH. lia.
Qed.

Lemma loop_end_events agent client mentions k r tail :
  loop_end agent client mentions k r tail →
  Forall (λ ev, is_downstream ev = true) tail.
Proof. destruct 1; repeat constructor. Qed.

Lemma downstream_not P l :
  (∀ ev, is_downstream ev = true → P ev = false) →
  Forall (λ ev, is_downstream ev = true) l →
  Forall (λ ev : Event, P ev = false) l.
Proof. intros HP Hl. eapply Forall_impl; [exact Hl|]. exact HP. Qed.

(** ** One cycle *)

Lemma agent_body_shape env agent s :
  trace (agent_body env agent s).2
  = trace s ++ events_since s (agent_body env agent s).2 ∧
  cycle_shape agent s (agent_body env agent s).1
    (plugin_store (agent_body env agent s).2)
    (quota_store (agent_body env agent s).2)
    (events_since s (agent_body env agent s).2).
Proof.
  destruct (agent_body env agent s) as [r s'] eqn:H.
  exec_in H;
    try match goal with
      | Hl : process_mentions ?e ?a ?c ?ms ?s1 = _ |- _ =>
          destruct (process_mentions_run e a c ms s1)
            as (replies & r' & tail & Hlen & Hrun & Hend);
          rewrite Hrun in Hl; inversion Hl; subst; clear Hl
      end;
    try match goal with
      | Hend : loop_end _ _ _ _ (inr _) _ |- _ =>
          inversion Hend; subst; clear Hend
      end;
    inversion H; subst; clear H; unfold events_since; norm_state;
    rewrite drop_app_length; (split; [reflexivity|]).
  all: try solve [apply cycle_stopped_early; repeat constructor].
  all: rewrite ?stored_row_record; eapply cycle_fetched; eauto.
  all: solve [econstructor; eauto].
Qed.

(** One turn of the loop over the agents is the body followed by the
    handler. *)
Lemma process_agent_shape env agent s :
  ∃ r ps qs evs,
    (agent_body env agent s).1 = r ∧
    cycle_shape agent s r ps qs evs ∧
    process_agent env agent s
    = {| plugin_store := ps; quota_store := qs;
         trace := trace s ++ evs ++ handler_log agent r |}.
Proof.
  destruct (agent_body_shape env agent s) as [Htr Hshape].
  unfold process_agent.
  destruct (agent_body env agent s) as [[e|[]] [ps qs tr]]; simpl in *;
    eexists _, ps, qs, _; (split; [reflexivity|]); (split; [exact Hshape|]);
    unfold record; simpl; rewrite Htr at 1;
    by rewrite <- ?app_assoc, ?app_nil_r.
Qed.

Lemma handler_log_quiet (P : Event → bool) agent r :
  (∀ msg, P (ELog ERROR msg) = false) →
  Forall (λ ev, P ev = false) (handler_log agent r).
Proof. intros HP. destruct r; repeat constructor. apply HP. Qed.

(** After the fetch no second fetch is made. *)
Lemma after_fetch_no_fetch agent s client mentions r ps qs rest :
  after_fetch agent s client mentions r ps qs rest →
  Forall (λ ev, is_fetch_answer ev = false) rest.
Proof.
  assert (Hd : ∀ l, Forall (λ ev, is_downstream ev = true) l →
                    Forall (λ ev, is_fetch_answer ev = false) l).
  { intros l. apply downstream_not. by intros []. }
  destruct 1; repeat first
    [ apply Forall_nil_2 | apply Forall_cons_2; [reflexivity|]
    | apply Forall_app_2 ];
    try (apply Hd, replies_are_downstream).
  eapply Hd, loop_end_events; eassumption.
Qed.

(** A fetch that was answered is the one fetch of its cycle: it was made with
    the stored cursor, and the cycle went on from it as [after_fetch] says. *)
Lemma cycle_fetch_inv agent s r ps qs evs c q mentions :
  cycle_shape agent s r ps qs evs →
  EGetUsersMentions c q (inr mentions) ∈ evs →
  ∃ pre rest,
    evs = pre ++ EGetUsersMentions c q (inr mentions) :: rest ∧
    Forall (λ ev, is_cycle_work ev = false ∧ is_error_log ev = false) pre ∧
    q_since_id q = cursor s agent ∧
    quota_left (loaded_quota s (agent_id agent)) = true ∧
    after_fetch agent s c mentions r ps qs rest.
Proof.
  intros Hshape Hin. destruct Hshape as [r r0 evs Hquiet|].
  - rewrite Forall_forall in Hquiet.
    apply elem_of_cons in Hin as [Hin|Hin]; [discriminate|].
    apply Hquiet in Hin. discriminate.
  - match goal with H : after_fetch _ _ _ _ _ _ _ _ |- _ =>
      pose proof (after_fetch_no_fetch _ _ _ _ _ _ _ _ H) as Hrest
    end.
    rewrite Forall_forall in Hrest.
    repeat (apply elem_of_cons in Hin as [Hin|Hin]; [try discriminate|]).
    + inversion Hin; subst.
      eexists [_; _; _; _; _], _. split; [reflexivity|].
      split; [repeat constructor|]. auto.
    + apply Hrest in Hin. discriminate.
Qed.

(** The same, read off the trace of a whole turn. *)
Lemma turn_fetch_inv env agent s c q mentions :
  EGetUsersMentions c q (inr mentions)
    ∈ events_since s (process_agent env agent s) →
  ∃ r ps qs pre rest,
    (agent_body env agent s).1 = r ∧
    plugin_store (process_agent env agent s) = ps ∧
    quota_store (process_agent env agent s) = qs ∧
    events_since s (process_agent env agent s)
    = pre ++ EGetUsersMentions c q (inr mentions) :: rest
      ++ handler_log agent r ∧
    Forall (λ ev, is_cycle_work ev = false ∧ is_error_log ev = false) pre ∧
    q_since_id q = cursor s agent ∧
    quota_left (loaded_quota s (agent_id agent)) = true ∧
    after_fetch agent s c mentions r ps qs rest.
Proof.
  destruct (process_agent_shape env agent s)
    as (r & ps & qs & evs & Hr & Hshape & ->).
  rewrite events_since_state. intros Hin.
  apply elem_of_app in Hin as [Hin|Hin].
  - destruct (cycle_fetch_inv _ _ _ _ _ _ _ _ _ Hshape Hin)
      as (pre & rest & -> & Hpre & Hq & Hleft & Haf).
    exists r, ps, qs, pre, rest. simpl. rewrite <- app_assoc. simpl. auto 10.
  - destruct r; simpl in Hin.
    + apply list_elem_of_singleton in Hin. discriminate.
    + by apply elem_of_nil in Hin.
Qed.

(** Before the fetch is answered a cycle makes none of the calls that
    [is_cycle_work] lists and logs no error. *)
Lemma quiet_count (P : Event → bool) pre :
  (∀ ev, is_cycle_work ev = false → is_error_log ev = false → P ev = false) →
  Forall (λ ev, is_cycle_work ev = false ∧ is_error_log ev = false) pre →
  count P pre = 0%nat.
Proof.
  intros HP Hpre. apply count_none. eapply Forall_impl; [exact Hpre|].
  intros ev [? ?]. by apply HP.
Qed.

Lemma cursor_same s s' agent :
  plugin_store s' = plugin_store s → cursor s' agent = cursor s agent.
Proof. intros H. unfold cursor, stored_row. by rewrite H. Qed.

Lemma cursor_written ps s' agent (marker : option string) :
  plugin_store s'
  = <[cursor_key agent := Some {[ "last_tweet_id" := marker ]}]> ps →
  cursor s' agent = marker.
Proof.
  intros H. unfold cursor, stored_row, cursor_key in *. rewrite H.
  rewrite lookup_insert_eq. unfold since_id_of, truthy_dict, dict_get. simpl.
  rewrite map_size_singleton, lookup_singleton_eq. reflexivity.
Qed.

(** A record with quota left is a record of the table. *)
Lemma quota_left_stored s a :
  quota_left (loaded_quota s a) = true →
  quota_store s !! a = Some (loaded_quota s a).
Proof.
  unfold loaded_quota. destruct (quota_store s !! a); simpl; [done|].
  discriminate.
Qed.

(** * Properties of the entrypoint *)

(** C3.  In a cycle whose fetch returns no mention ([data] is [None] or
    empty) the body of the [try] block ends without an exception, after the
    fetch only the "no new mentions" line is logged, no error is logged, the
    cursor row is neither written nor changed, and the quota is neither
    charged nor changed. *)
Theorem no_mentions_cycle_is_a_noop env agent s c q mentions :
  EGetUsersMentions c q (inr mentions)
    ∈ events_since s (process_agent env agent s) →
  truthy_list (resp_data mentions) = false →
  (agent_body env agent s).1 = inr tt ∧
  (∃ pre,
     events_since s (process_agent env agent s)
     = pre ++ [EGetUsersMentions c q (inr mentions);
               ELog INFO (no_mentions_msg agent)]) ∧
  count is_error_log (events_since s (process_agent env agent s)) = 0%nat ∧
  count is_quota_consumption (events_since s (process_agent env agent s))
  = 0%nat ∧
  quota_store (process_agent env agent s) = quota_store s ∧
  count is_cursor_write (events_since s (process_agent env agent s)) = 0%nat ∧
  plugin_store (process_agent env agent s) = plugin_store s ∧
  cursor (process_agent env agent s) agent = cursor s agent.
Proof.
  intros Hin Hempty.
  destruct (turn_fetch_inv _ _ _ _ _ _ Hin)
    as (r & ps & qs & pre & rest & Hr & Hps & Hqs & Hev & Hpre & _ & _ & Haf).
  inversion Haf; try congruence; subst; settle_turn.
  simpl in Hev. rewrite Hev.
  split; [reflexivity|]. split; [by exists pre|].
  rewrite !count_app, !count_cons. simpl.
  rewrite !(quiet_count _ pre) by (assumption || by intros []).
  repeat split; try reflexivity; try assumption. by apply cursor_same.
Qed.

(** The witness of C3: account A, the platform returns no mention. *)
Lemma no_mentions_cycle_is_a_noop_witness :
  (agent_body (Scenario.world Scenario.no_mentions) Scenario.agentA
     Scenario.with_cursor).1 = inr tt ∧
  cursor (process_agent (Scenario.world Scenario.no_mentions) Scenario.agentA
            Scenario.with_cursor) Scenario.agentA = Some "900" ∧
  quota_store (process_agent (Scenario.world Scenario.no_mentions)
                 Scenario.agentA Scenario.with_cursor)
  = quota_store Scenario.with_cursor.
Proof.
  destruct (no_mentions_cycle_is_a_noop
              (Scenario.world Scenario.no_mentions) Scenario.agentA
              Scenario.with_cursor
              (create_twitter_client {[ "bearer_token" := "secret" ]})
              {| q_id := "42"; q_max_results := 10;
                 q_since_id := Some "900";
                 q_start_time := 1714557690000 - one_day;
                 q_tweet_fields := ["created_at"; "author_id"; "text"] |}
              Scenario.no_mentions)
    as (Hok & _ & _ & _ & Hq & _ & _ & Hc).
  - vm_compute. do 5 apply list_elem_of_further. apply list_elem_of_here.
  - reflexivity.
  - split; [exact Hok|]. split; [|exact Hq]. rewrite Hc. reflexivity.
Defined.

(** C2.  In a cycle that ends without an exception and whose fetch returned
    at least one mention together with a newest id, the cursor row is
    overwritten with exactly that id, the quota is charged by a single call
    of [add_twitter], which leaves the daily and the total counter one
    higher each, while the engine was called once per mention. *)
Theorem successful_cycle_moves_cursor_and_charges_once
    env agent s c q mentions marker :
  (agent_body env agent s).1 = inr tt →
  EGetUsersMentions c q (inr mentions)
    ∈ events_since s (process_agent env agent s) →
  truthy_list (resp_data mentions) = true →
  resp_meta mentions !! "newest_id" = Some marker →
  plugin_store (process_agent env agent s)
  = <[cursor_key agent := Some {[ "last_tweet_id" := Some marker ]}]>
      (plugin_store s) ∧
  cursor (process_agent env agent s) agent = Some marker ∧
  count is_quota_consumption (events_since s (process_agent env agent s))
  = 1%nat ∧
  count is_engine_call (events_since s (process_agent env agent s))
  = length (default [] (resp_data mentions)) ∧
  ∃ quota,
    quota_store s !! agent_id agent = Some quota ∧
    quota_store (process_agent env agent s)
    = <[agent_id agent := consumed quota]> (quota_store s) ∧
    loaded_quota (process_agent env agent s) (agent_id agent)
    = {| twitter_count_daily := twitter_count_daily quota + 1;
         twitter_limit_daily := twitter_limit_daily quota;
         twitter_count_total := twitter_count_total quota + 1;
         twitter_limit_total := twitter_limit_total quota |}.
Proof.
  intros Hok Hin Hsome Hmarker.
  destruct (turn_fetch_inv _ _ _ _ _ _ Hin)
    as (r & ps & qs & pre & rest & Hr & Hps & Hqs & Hev & Hpre & _ & Hleft
        & Haf).
  inversion Haf; try congruence; subst; settle_turn.
  rewrite Hmarker in *.
  split; [assumption|]. split; [by eapply cursor_written|].
  simpl in Hev. rewrite app_nil_r in Hev. rewrite Hev.
  repeat first [rewrite count_app | rewrite count_cons]. simpl.
  rewrite !(quiet_count _ pre) by (assumption || by intros []).
  rewrite (count_none is_quota_consumption)
    by (eapply downstream_not, replies_are_downstream; by intros []).
  rewrite replies_engine_calls by assumption.
  split; [reflexivity|]. split; [unfold count; simpl; lia|].
  exists (loaded_quota s (agent_id agent)).
  split; [by apply quota_left_stored|]. split; [assumption|].
  unfold loaded_quota at 1.
  match goal with H : quota_store _ = _ |- _ => rewrite H end.
  by rewrite lookup_insert_eq.
Qed.

(** The witness of C2: the scenario of the spec, two mentions with newest id
    1001 for account A at quota 0/5 and 0/50. *)
Lemma successful_cycle_moves_cursor_and_charges_once_witness :
  cursor (process_agent (Scenario.world Scenario.two_mentions) Scenario.agentA
            Scenario.fresh) Scenario.agentA = Some "1001" ∧
  count is_quota_consumption
    (events_since Scenario.fresh
       (process_agent (Scenario.world Scenario.two_mentions) Scenario.agentA
          Scenario.fresh)) = 1%nat.
Proof.
  destruct (successful_cycle_moves_cursor_and_charges_once
              (Scenario.world Scenario.two_mentions) Scenario.agentA
              Scenario.fresh
              (create_twitter_client {[ "bearer_token" := "secret" ]})
              {| q_id := "42"; q_max_results := 10;
                 q_since_id := None;
                 q_start_time := 1714557690000 - one_day;
                 q_tweet_fields := ["created_at"; "author_id"; "text"] |}
              Scenario.two_mentions "1001")
    as (_ & Hc & Hn & _).
  - reflexivity.
  - vm_compute. do 5 apply list_elem_of_further. apply list_elem_of_here.
  - reflexivity.
  - reflexivity.
  - split; [exact Hc|exact Hn].
Defined.

(** The scenario of the spec in full: the cursor becomes 1001, the engine is
    called with the thread ids A-twitter-7 and A-twitter-8, two replies are
    posted and the quota becomes 1/5 and 1/50. *)
Example spec_scenario_account_A :
  let s' := process_agent (Scenario.world Scenario.two_mentions)
              Scenario.agentA Scenario.fresh in
  cursor s' Scenario.agentA = Some "1001" ∧
  quota_store s' !! "A" = Some (Scenario.quota_of 1 1) ∧
  List.filter is_downstream (events_since Scenario.fresh s')
  = [ EExecuteAgent "A" "hello" "A-twitter-7"
        (inr ["You said: hello"; "Bye"]);
      ECreateTweet (create_twitter_client {[ "bearer_token" := "secret" ]})
        ("You said: hello" +:+ newline +:+ "Bye") "1000" (inr tt);
      EExecuteAgent "A" "are you there" "A-twitter-8"
        (inr ["You said: are you there"; "Bye"]);
      ECreateTweet (create_twitter_client {[ "bearer_token" := "secret" ]})
        ("You said: are you there" +:+ newline +:+ "Bye") "1001" (inr tt) ].
Proof. cbv zeta. repeat apply conj; vm_compute; reflexivity. Qed.

(** When the fetch returns mentions and the metadata is empty, the cycle
    raises, the handler logs the error, and neither the cursor row nor the
    quota is touched. *)
Lemma missing_meta_fails_the_cycle env agent s c q mentions :
  EGetUsersMentions c q (inr mentions)
    ∈ events_since s (process_agent env agent s) →
  truthy_list (resp_data mentions) = true →
  truthy_dict (Some (resp_meta mentions)) = false →
  (agent_body env agent s).1 = inl (no_last_tweet_msg agent) ∧
  (∃ pre,
     events_since s (process_agent env agent s)
     = pre ++ [EGetUsersMentions c q (inr mentions);
               ELog ERROR (error_msg agent (no_last_tweet_msg agent))]) ∧
  count is_cursor_write (events_since s (process_agent env agent s)) = 0%nat ∧
  plugin_store (process_agent env agent s) = plugin_store s ∧
  cursor (process_agent env agent s) agent = cursor s agent ∧
  count is_quota_consumption (events_since s (process_agent env agent s))
  = 0%nat ∧
  quota_store (process_agent env agent s) = quota_store s.
Proof.
  intros Hin Hsome Hmeta.
  destruct (turn_fetch_inv _ _ _ _ _ _ Hin)
    as (r & ps & qs & pre & rest & Hr & Hps & Hqs & Hev & Hpre & _ & _ & Haf).
  inversion Haf; try congruence; subst; settle_turn.
  simpl in Hev. rewrite Hev.
  split; [reflexivity|]. split; [by exists pre|].
  repeat first [rewrite count_app | rewrite count_cons]. simpl.
  rewrite !(quiet_count _ pre) by (assumption || by intros []).
  repeat split; try reflexivity; try assumption. by apply cursor_same.
Qed.

(** C1, at the input where the code departs from it.  The fetch returns one
    mention and metadata that has a result count but no newest id.
    [mentions.meta] is truthy, so the cycle does not raise: it overwrites the
    stored cursor 900 with a row whose [last_tweet_id] is [None], answers the
    mention, charges the quota, and logs no error. *)
Theorem missing_newest_id_key_is_not_caught :
  let env := Scenario.world Scenario.no_marker in
  let s' := process_agent env Scenario.agentA Scenario.with_cursor in
  truthy_list (resp_data Scenario.no_marker) = true ∧
  resp_meta Scenario.no_marker !! "newest_id" = None ∧
  (agent_body env Scenario.agentA Scenario.with_cursor).1 = inr tt ∧
  count is_error_log (events_since Scenario.with_cursor s') = 0%nat ∧
  cursor Scenario.with_cursor Scenario.agentA = Some "900" ∧
  plugin_store s' !! cursor_key Scenario.agentA
  = Some (Some {[ "last_tweet_id" := None ]}) ∧
  cursor s' Scenario.agentA = None ∧
  count is_quota_consumption (events_since Scenario.with_cursor s') = 1%nat ∧
  quota_store s' !! "A" = Some (Scenario.quota_of 1 1).
Proof. cbv zeta. repeat apply conj; vm_compute; reflexivity. Qed.

(** With no metadata at all the same mention makes the cycle fail as C1
    says. *)
Example missing_meta_scenario :
  let env := Scenario.world Scenario.no_meta in
  let s' := process_agent env Scenario.agentA Scenario.with_cursor in
  (agent_body env Scenario.agentA Scenario.with_cursor).1
  = inl "Failed to get last tweet id for agent A" ∧
  count is_error_log (events_since Scenario.with_cursor s') = 1%nat ∧
  cursor s' Scenario.agentA = Some "900" ∧
  quota_store s' = quota_store Scenario.with_cursor.
Proof. cbv zeta. repeat apply conj; vm_compute; reflexivity. Qed.

Lemma elem_of_middle (pre : list Event) x post l :
  l = pre ++ x :: post → x ∈ l.
Proof. intros ->. apply elem_of_app. right. apply list_elem_of_here. Qed.

(** C4.  Whenever the response engine is called in a cycle, the events before
    that call contain the answered fetch and the write of the cursor row with
    the newest id of that fetch, and the write had returned; the row is in
    the table when the turn ends. *)
Theorem cursor_is_written_before_any_engine_call
    env agent s pre a txt thread_id r post :
  events_since s (process_agent env agent s)
  = pre ++ EExecuteAgent a txt thread_id r :: post →
  ∃ c q mentions,
    EGetUsersMentions c q (inr mentions) ∈ pre ∧
    EPluginSave (cursor_row agent (resp_meta mentions !! "newest_id")) (inr tt)
      ∈ pre ∧
    plugin_store (process_agent env agent s) !! cursor_key agent
    = Some (Some {[ "last_tweet_id" := resp_meta mentions !! "newest_id" ]}).
Proof.
  destruct (process_agent_shape env agent s)
    as (r0 & ps & qs & evs & _ & Hshape & ->).
  rewrite events_since_state. simpl. intros Heq.
  apply (split_before is_engine_call) in Heq as (post' & _ & Hevs);
    [|by apply handler_log_quiet|reflexivity].
  destruct Hshape as [r0 r1 evs Hquiet|config me_data start_time mentions r0
                                        ps qs rest Hcfg Hleft Haf].
  - apply elem_of_middle in Hevs.
    apply elem_of_cons in Hevs as [Hevs|Hevs]; [discriminate|].
    rewrite Forall_forall in Hquiet. apply Hquiet in Hevs. discriminate.
  - apply (split_past is_engine_call [_; _; _; _; _; _] rest) in Hevs
      as (pre' & -> & Hrest); [|repeat constructor|reflexivity].
    eexists (create_twitter_client config), _, mentions.
    revert Hrest. inversion Haf; subst; intros Hrest;
      try (apply elem_of_middle in Hrest;
           repeat (apply elem_of_cons in Hrest as [Hrest|Hrest];
                   [discriminate|]);
           by apply elem_of_nil in Hrest).
    all: match type of Hrest with
         | ?x :: ?l = _ =>
             apply (split_past is_engine_call [x] l) in Hrest
               as (pre'' & -> & _); [|repeat constructor|reflexivity]
         end.
    all: split; [|split; [|by rewrite lookup_insert_eq]].
    all: rewrite !elem_of_app, !elem_of_cons; auto 20.
Qed.

(** The witness of C4: the engine call for the second mention of the
    two-mention scenario. *)
Lemma cursor_is_written_before_any_engine_call_witness :
  ∃ mentions,
    plugin_store (process_agent (Scenario.world Scenario.two_mentions)
                    Scenario.agentA Scenario.fresh)
      !! cursor_key Scenario.agentA
    = Some (Some {[ "last_tweet_id" := resp_meta mentions !! "newest_id" ]}).
Proof.
  destruct (cursor_is_written_before_any_engine_call
              (Scenario.world Scenario.two_mentions) Scenario.agentA
              Scenario.fresh
              (take 9 (events_since Scenario.fresh
                         (process_agent (Scenario.world Scenario.two_mentions)
                            Scenario.agentA Scenario.fresh)))
              "A" "are you there" "A-twitter-8"
              (inr ["You said: are you there"; "Bye"])
              (drop 10 (events_since Scenario.fresh
                          (process_agent
                             (Scenario.world Scenario.two_mentions)
                             Scenario.agentA Scenario.fresh))))
    as (c & q & mentions & _ & _ & Hrow).
  - vm_compute. reflexivity.
  - exists mentions. exact Hrow.
Defined.

Lemma failure_has_failed ev e : downstream_failure ev = Some e → has_failed ev = true.
Proof. unfold has_failed. by intros ->. Qed.

(** A raising call ends the loop over the mentions: it is the last event of
    the loop, and the loop raises the same exception. *)
Lemma loop_end_failure agent client mentions k r tail pre ev post e :
  loop_end agent client mentions k r tail →
  tail = pre ++ ev :: post →
  downstream_failure ev = Some e →
  post = [] ∧ r = inl e.
Proof.
  intros Hend Htail Hfail. destruct Hend.
  - by destruct pre.
  - destruct pre as [|? [|? ?]]; simplify_eq/=. done.
  - destruct pre as [|? [|? [|? ?]]]; simplify_eq/=. done.
Qed.

(** A raising call to the engine or of a reply post can only come after the
    cursor row was written.  It is the last call of the cycle: the cycle
    raises the same exception, the quota is not charged, and the cursor row
    stays as written. *)
Lemma after_fetch_failure agent s client mentions r ps qs rest pre ev post e :
  after_fetch agent s client mentions r ps qs rest →
  rest = pre ++ ev :: post →
  downstream_failure ev = Some e →
  post = [] ∧ r = inl e ∧ qs = quota_store s ∧
  count is_quota_consumption rest = 0%nat ∧
  ps = <[cursor_key agent :=
           Some {[ "last_tweet_id" := resp_meta mentions !! "newest_id" ]}]>
         (plugin_store s).
Proof.
  intros Haf Hrest Hfail.
  pose proof (failure_has_failed _ _ Hfail) as Hbad.
  revert Hrest. inversion Haf; subst; intros Hrest;
    try (apply elem_of_middle in Hrest;
         repeat (apply elem_of_cons in Hrest as [->|Hrest];
                 [discriminate|]);
         by apply elem_of_nil in Hrest).
  all: match type of Hrest with
       | ?x :: ?l = _ =>
           apply (split_past has_failed [x] l) in Hrest
             as (pre' & -> & Hrest); [|repeat constructor|assumption]
       end.
  all: apply (split_past has_failed) in Hrest as (pre'' & -> & Hrest);
    [|apply replies_do_not_fail|assumption].
  - match goal with H : loop_end _ _ _ _ _ _ |- _ =>
      pose proof (loop_end_events _ _ _ _ _ _ H) as Htail;
      destruct (loop_end_failure _ _ _ _ _ _ _ _ _ _ H Hrest Hfail)
        as [-> Hr]
    end.
    repeat split; try congruence.
    rewrite count_cons, count_app. simpl.
    rewrite !count_none; [reflexivity| |];
      eapply downstream_not; try eassumption;
      try apply replies_are_downstream; by intros [].
  - destruct pre'' as [|? [|? ?]]; simplify_eq/=.
  - destruct pre'' as [|? [|? ?]]; simplify_eq/=.
Qed.

(** A raising call to the engine or of a reply post, read off the trace of
    a whole turn. *)
Lemma turn_failure_inv env agent s pre ev post e :
  events_since s (process_agent env agent s) = pre ++ ev :: post →
  downstream_failure ev = Some e →
  post = [ELog ERROR (error_msg agent e)] ∧
  (agent_body env agent s).1 = inl e ∧
  count is_quota_consumption (events_since s (process_agent env agent s))
  = 0%nat ∧
  quota_store (process_agent env agent s) = quota_store s ∧
  ∃ c q mentions,
    EGetUsersMentions c q (inr mentions) ∈ pre ∧
    plugin_store (process_agent env agent s)
    = <[cursor_key agent :=
          Some {[ "last_tweet_id" := resp_meta mentions !! "newest_id" ]}]>
        (plugin_store s).
Proof.
  intros Heq Hfail.
  pose proof (failure_has_failed _ _ Hfail) as Hbad.
  rewrite Heq. revert Heq.
  destruct (process_agent_shape env agent s)
    as (r & ps & qs & evs & Hr & Hshape & ->).
  rewrite events_since_state. simpl. intros Heq. rewrite <- Heq.
  apply (split_before has_failed) in Heq as (post' & -> & Hevs);
    [|by apply handler_log_quiet|assumption].
  destruct Hshape as [r r1 evs Hquiet|config me_data start_time mentions r
                                       ps qs rest Hcfg Hleft Haf].
  - apply elem_of_middle in Hevs.
    apply elem_of_cons in Hevs as [->|Hevs]; [discriminate|].
    rewrite Forall_forall in Hquiet. apply Hquiet in Hevs.
    by destruct ev as [| | | | | | | |? ? ? []|? ? ? []| |].
  - apply (split_past has_failed [_; _; _; _; _; _] rest) in Hevs
      as (pre' & -> & Hrest); [|repeat constructor|assumption].
    destruct (after_fetch_failure _ _ _ _ _ _ _ _ _ _ _ _ Haf Hrest Hfail)
      as (-> & -> & -> & Hcount & ->).
    repeat split; try assumption.
    + repeat first [rewrite count_app | rewrite count_cons]. simpl.
      rewrite Hcount. reflexivity.
    + eexists (create_twitter_client config), _, mentions.
      split; [|reflexivity].
      rewrite !elem_of_app, !elem_of_cons; auto 20.
Qed.

(** C5.  When a call to the response engine or a reply post raises in a
    cycle, the only event after it is the error line of the handler: no
    further engine call and no further reply post is made, the cycle raises
    that exception, [add_twitter] is not called and the quota record is
    unchanged. *)
Theorem downstream_failure_ends_the_cycle env agent s pre ev post e :
  events_since s (process_agent env agent s) = pre ++ ev :: post →
  downstream_failure ev = Some e →
  post = [ELog ERROR (error_msg agent e)] ∧
  (agent_body env agent s).1 = inl e ∧
  count is_engine_call post = 0%nat ∧
  count is_reply_post post = 0%nat ∧
  count is_quota_consumption (events_since s (process_agent env agent s))
  = 0%nat ∧
  quota_store (process_agent env agent s) = quota_store s.
Proof.
  intros Heq Hfail.
  destruct (turn_failure_inv _ _ _ _ _ _ _ Heq Hfail)
    as (-> & Hr & Hcount & Hq & _).
  auto 10.
Qed.

(** The witness of C5: the platform refuses the reply to the first of two
    mentions. *)
Lemma downstream_failure_ends_the_cycle_witness :
  drop 9 (events_since Scenario.fresh
            (process_agent Scenario.post_refused Scenario.agentA
               Scenario.fresh))
  = [ELog ERROR (error_msg Scenario.agentA "403 Forbidden")] ∧
  quota_store (process_agent Scenario.post_refused Scenario.agentA
                 Scenario.fresh)
  = quota_store Scenario.fresh.
Proof.
  destruct (downstream_failure_ends_the_cycle
              Scenario.post_refused Scenario.agentA Scenario.fresh
              (take 8 (events_since Scenario.fresh
                         (process_agent Scenario.post_refused Scenario.agentA
                            Scenario.fresh)))
              (ECreateTweet
                 (create_twitter_client {[ "bearer_token" := "secret" ]})
                 ("You said: hello" +:+ newline +:+ "Bye") "1000"
                 (inl "403 Forbidden"))
              (drop 9 (events_since Scenario.fresh
                         (process_agent Scenario.post_refused Scenario.agentA
                            Scenario.fresh)))
              "403 Forbidden")
    as (Hpost & _ & _ & _ & _ & Hq).
  - vm_compute. reflexivity.
  - reflexivity.
  - split; [exact Hpost|exact Hq].
Defined.

(** C9.  When a call to the response engine or a reply post raises in a
    cycle, the turn ends with the cursor row as the cycle wrote it, holding
    the newest id of the cycle's fetch: the handler does not put the old row
    back.  Any later fetch of that agent made from a state with this cursor
    passes the newest id as [since_id]. *)
Theorem cursor_is_kept_after_downstream_failure env agent s ev e :
  ev ∈ events_since s (process_agent env agent s) →
  downstream_failure ev = Some e →
  ∃ c q mentions,
    EGetUsersMentions c q (inr mentions)
      ∈ events_since s (process_agent env agent s) ∧
    plugin_store (process_agent env agent s)
    = <[cursor_key agent :=
          Some {[ "last_tweet_id" := resp_meta mentions !! "newest_id" ]}]>
        (plugin_store s) ∧
    cursor (process_agent env agent s) agent
    = resp_meta mentions !! "newest_id" ∧
    ∀ env' s' c' q' mentions',
      cursor s' agent = cursor (process_agent env agent s) agent →
      EGetUsersMentions c' q' (inr mentions')
        ∈ events_since s' (process_agent env' agent s') →
      q_since_id q' = resp_meta mentions !! "newest_id".
Proof.
  intros Hin Hfail.
  apply list_elem_of_split in Hin as (pre & post & Heq).
  destruct (turn_failure_inv _ _ _ _ _ _ _ Heq Hfail)
    as (_ & _ & _ & _ & c & q & mentions & Hfetch & Hps).
  exists c, q, mentions.
  assert (Hcur : cursor (process_agent env agent s) agent
                 = resp_meta mentions !! "newest_id")
    by (by eapply cursor_written).
  split; [rewrite Heq; apply elem_of_app; by left|].
  split; [assumption|]. split; [assumption|].
  intros env' s' c' q' mentions' Hsame Hin'.
  destruct (turn_fetch_inv _ _ _ _ _ _ Hin')
    as (r' & ps' & qs' & pre' & rest' & _ & _ & _ & _ & _ & Hsince & _).
  congruence.
Qed.

(** The witness of C9: the platform refuses the reply to the first of two
    mentions; the cursor stays at the newest id 1001. *)
Lemma cursor_is_kept_after_downstream_failure_witness :
  ∃ mentions,
    cursor (process_agent Scenario.post_refused Scenario.agentA
              Scenario.with_cursor) Scenario.agentA
    = resp_meta mentions !! "newest_id".
Proof.
  destruct (cursor_is_kept_after_downstream_failure
              Scenario.post_refused Scenario.agentA Scenario.with_cursor
              (ECreateTweet
                 (create_twitter_client {[ "bearer_token" := "secret" ]})
                 ("You said: hello" +:+ newline +:+ "Bye") "1000"
                 (inl "403 Forbidden"))
              "403 Forbidden")
    as (c & q & mentions & _ & _ & Hcur & _).
  - vm_compute. do 8 apply list_elem_of_further. apply list_elem_of_here.
  - reflexivity.
  - exists mentions. exact Hcur.
Defined.

Example cursor_after_refused_post :
  cursor Scenario.with_cursor Scenario.agentA = Some "900" ∧
  cursor (process_agent Scenario.post_refused Scenario.agentA
            Scenario.with_cursor) Scenario.agentA = Some "1001".
Proof. cbv zeta. repeat apply conj; vm_compute; reflexivity. Qed.

(** ** The tick *)

Lemma events_since_trans s1 s2 s3 evs1 evs2 :
  trace s2 = trace s1 ++ evs1 →
  trace s3 = trace s2 ++ evs2 →
  events_since s1 s3 = evs1 ++ evs2.
Proof.
  intros H12 H23. unfold events_since.
  rewrite H23, H12, <- app_assoc. apply drop_app_length.
Qed.

(** Every turn starts by loading the quota record of its agent. *)
Lemma process_agent_trace env agent s :
  ∃ r evs,
    trace (process_agent env agent s)
    = trace s ++ EQuotaGet (agent_id agent) r :: evs.
Proof.
  destruct (process_agent_shape env agent s)
    as (r & ps & qs & evs & _ & Hshape & ->).
  simpl. destruct Hshape; eexists _, _; reflexivity.
Qed.

Lemma for_each_agent_trace env agents s :
  ∃ evs, trace (for_each_agent env agents s) = trace s ++ evs.
Proof.
  revert s. induction agents as [|agent rest IH]; intros s; simpl.
  - exists []. by rewrite app_nil_r.
  - destruct (IH (process_agent env agent s)) as [evs2 ->].
    destruct (process_agent_trace env agent s) as (r & evs1 & ->).
    eexists. by rewrite <- app_assoc.
Qed.

(** Whatever the turns of the other agents do, every agent of the tick gets
    its turn. *)
Lemma every_agent_is_visited env agents s a :
  a ∈ agents →
  ∃ r, EQuotaGet (agent_id a) r
         ∈ events_since s (for_each_agent env agents s).
Proof.
  revert s. induction agents as [|agent rest IH]; intros s Hin.
  - by apply elem_of_nil in Hin.
  - simpl.
    destruct (process_agent_trace env agent s) as (r1 & evs1 & H1).
    destruct (for_each_agent_trace env rest (process_agent env agent s))
      as [evs2 H2].
    rewrite (events_since_trans _ _ _ _ _ H1 H2).
    apply elem_of_cons in Hin as [->|Hin].
    + exists r1. apply list_elem_of_here.
    + destruct (IH (process_agent env agent s) Hin) as [r Hr].
      exists r. unfold events_since in Hr.
      rewrite H2, drop_app_length in Hr.
      apply elem_of_app. by right.
Qed.

(** C6.  When the quota record of an account is loaded and the quota check
    answers false, the turn of that account consists of exactly three
    events: the load, the check and a warning line.  No client is built,
    nothing is fetched, the cursor row is not written, the quota is not
    charged, both tables stay as they were, and the tick goes on with the
    next account. *)
Theorem account_without_quota_is_skipped env agent rest s quota :
  (AgentQuota_get env (agent_id agent) s).1 = inr quota →
  (has_twitter_quota env (agent_id agent) quota
     (AgentQuota_get env (agent_id agent) s).2).1 = inr false →
  events_since s (process_agent env agent s)
  = [ EQuotaGet (agent_id agent) (inr quota);
      EHasTwitterQuota (agent_id agent) (inr false);
      ELog WARNING (no_quota_msg agent quota) ] ∧
  plugin_store (process_agent env agent s) = plugin_store s ∧
  quota_store (process_agent env agent s) = quota_store s ∧
  for_each_agent env (agent :: rest) s
  = for_each_agent env rest
      (extend s [ EQuotaGet (agent_id agent) (inr quota);
                  EHasTwitterQuota (agent_id agent) (inr false);
                  ELog WARNING (no_quota_msg agent quota) ]).
Proof.
  intros Hget Hcheck.
  assert (Hturn : process_agent env agent s
                  = extend s [ EQuotaGet (agent_id agent) (inr quota);
                               EHasTwitterQuota (agent_id agent) (inr false);
                               ELog WARNING (no_quota_msg agent quota) ]).
  { unfold AgentQuota_get, has_twitter_quota, answered in Hget, Hcheck.
    simpl in Hget, Hcheck. rewrite Hget in Hcheck.
    unfold process_agent, agent_body, bind, AgentQuota_get, answered.
    rewrite Hget. unfold has_twitter_quota, answered. simpl.
    rewrite Hcheck. simpl. unfold log.
    rewrite !record_extend, !extend_extend. reflexivity. }
  simpl. rewrite Hturn, events_since_extend. auto.
Qed.

(** The witness of C6: account B of the spec's scenario, at 5/5 for the
    day. *)
Lemma account_without_quota_is_skipped_witness :
  events_since Scenario.fresh
    (process_agent (Scenario.world Scenario.two_mentions) Scenario.agentB
       Scenario.fresh)
  = [ EQuotaGet "B" (inr (Scenario.quota_of 5 5));
      EHasTwitterQuota "B" (inr false);
      ELog WARNING
        "Agent B has no twitter quota. Daily: 5/5, Total: 5/50" ].
Proof.
  destruct (account_without_quota_is_skipped
              (Scenario.world Scenario.two_mentions) Scenario.agentB
              [Scenario.agentC] Scenario.fresh (Scenario.quota_of 5 5))
    as (Hevs & _).
  - reflexivity.
  - reflexivity.
  - rewrite Hevs. reflexivity.
Defined.

(** The scenario of the spec for account B: nothing is fetched and no cursor
    row is written for B, and account C is processed in the same tick. *)
Example spec_scenario_account_B :
  let s' := for_each_agent (Scenario.world Scenario.two_mentions)
              [Scenario.agentB; Scenario.agentC] Scenario.fresh in
  plugin_store s' !! cursor_key Scenario.agentB = None ∧
  cursor s' Scenario.agentC = Some "1001" ∧
  count is_fetch_answer (events_since Scenario.fresh s') = 1%nat ∧
  count is_cursor_write (events_since Scenario.fresh s') = 1%nat.
Proof. cbv zeta. repeat apply conj; vm_compute; reflexivity. Qed.

(** C7.  When the body of the [try] block raises for an account, at whatever
    step, the handler logs one error line that carries the account id and the
    message of the exception, and the loop goes on with the next account from
    the state the failed cycle left.  Every account of the tick gets its
    turn, and the tick itself returns without an exception once the accounts
    were selected. *)
Theorem account_failure_does_not_stop_the_tick env agent rest s e :
  (agent_body env agent s).1 = inl e →
  process_agent env agent s
  = record (ELog ERROR ("Error processing twitter mentions for agent "
                        +:+ agent_id agent +:+ ": " +:+ e))
      (agent_body env agent s).2 ∧
  for_each_agent env (agent :: rest) s
  = for_each_agent env rest
      (record (ELog ERROR ("Error processing twitter mentions for agent "
                           +:+ agent_id agent +:+ ": " +:+ e))
         (agent_body env agent s).2) ∧
  (∀ a, a ∈ agent :: rest →
        ∃ r, EQuotaGet (agent_id a) r
               ∈ events_since s (for_each_agent env (agent :: rest) s)) ∧
  (∀ table agents,
     (select_agents env table s).1 = inr agents →
     (run_twitter_agents env table s).1 = inr tt).
Proof.
  intros Hraise.
  assert (Hturn : process_agent env agent s
                  = record (ELog ERROR (error_msg agent e))
                      (agent_body env agent s).2).
  { unfold process_agent. destruct (agent_body env agent s) as [r s'].
    simpl in Hraise. by subst r. }
  split; [exact Hturn|]. split; [simpl; by rewrite Hturn|].
  split; [intros a Ha; by apply every_agent_is_visited|].
  intros table agents Hsel. unfold run_twitter_agents, bind.
  destruct (select_agents env table s) as [r s']. simpl in Hsel. by subst r.
Qed.

(** The witness of C7: the reply post is refused for account A; the error is
    logged and account C is processed in the same tick. *)
Lemma account_failure_does_not_stop_the_tick_witness :
  ∃ r, EQuotaGet "C" r
         ∈ events_since Scenario.fresh
             (for_each_agent Scenario.post_refused
                [Scenario.agentA; Scenario.agentC] Scenario.fresh).
Proof.
  destruct (account_failure_does_not_stop_the_tick
              Scenario.post_refused Scenario.agentA [Scenario.agentC]
              Scenario.fresh "403 Forbidden")
    as (_ & _ & Hall & _).
  - reflexivity.
  - apply (Hall Scenario.agentC).
    apply list_elem_of_further, list_elem_of_here.
Defined.

Example failed_account_is_logged :
  List.filter is_error_log
    (events_since Scenario.fresh
       (for_each_agent Scenario.post_refused
          [Scenario.agentA; Scenario.agentC] Scenario.fresh))
  = [ ELog ERROR
        "Error processing twitter mentions for agent A: 403 Forbidden";
      ELog ERROR
        "Error processing twitter mentions for agent C: 403 Forbidden" ].
Proof. vm_compute. reflexivity. Qed.

(** C10.  The [try] block starts before the quota is looked at: when loading
    the quota record raises, or when the quota check raises, the turn
    consists of those calls and the error line of the handler, both tables
    stay as they were, and the tick goes on with the next account. *)
Theorem quota_errors_are_isolated env agent rest s e :
  (AgentQuota_get env (agent_id agent) s).1 = inl e ∨
  (∃ quota,
     (AgentQuota_get env (agent_id agent) s).1 = inr quota ∧
     (has_twitter_quota env (agent_id agent) quota
        (AgentQuota_get env (agent_id agent) s).2).1 = inl e) →
  ∃ calls,
    (calls = [EQuotaGet (agent_id agent) (inl e)] ∨
     ∃ quota, calls = [ EQuotaGet (agent_id agent) (inr quota);
                        EHasTwitterQuota (agent_id agent) (inl e) ]) ∧
    (agent_body env agent s).1 = inl e ∧
    process_agent env agent s
    = extend s (calls ++ [ELog ERROR (error_msg agent e)]) ∧
    for_each_agent env (agent :: rest) s
    = for_each_agent env rest
        (extend s (calls ++ [ELog ERROR (error_msg agent e)])) ∧
    ∀ a, a ∈ rest →
         ∃ r, EQuotaGet (agent_id a) r
                ∈ events_since s (for_each_agent env (agent :: rest) s).
Proof.
  intros Hraise.
  assert (Hturn :
    ∃ calls,
      (calls = [EQuotaGet (agent_id agent) (inl e)] ∨
       ∃ quota, calls = [ EQuotaGet (agent_id agent) (inr quota);
                          EHasTwitterQuota (agent_id agent) (inl e) ]) ∧
      agent_body env agent s = (inl e, extend s calls)).
  { destruct Hraise as [Hget|(quota & Hget & Hcheck)].
    - exists [EQuotaGet (agent_id agent) (inl e)]. split; [by left|].
      unfold AgentQuota_get, answered in Hget. simpl in Hget.
      unfold agent_body, bind, AgentQuota_get, answered.
      rewrite Hget. reflexivity.
    - exists [ EQuotaGet (agent_id agent) (inr quota);
               EHasTwitterQuota (agent_id agent) (inl e) ].
      split; [right; by exists quota|].
      unfold AgentQuota_get, has_twitter_quota, answered in Hget, Hcheck.
      simpl in Hget, Hcheck. rewrite Hget in Hcheck.
      unfold agent_body, bind, AgentQuota_get, answered.
      rewrite Hget. unfold has_twitter_quota, answered. simpl.
      rewrite Hcheck. rewrite !record_extend, !extend_extend. reflexivity. }
  destruct Hturn as (calls & Hcalls & Hbody).
  assert (Hpa : process_agent env agent s
                = extend s (calls ++ [ELog ERROR (error_msg agent e)])).
  { unfold process_agent. rewrite Hbody.
    by rewrite record_extend, extend_extend. }
  exists calls. split; [exact Hcalls|]. split; [by rewrite Hbody|].
  split; [exact Hpa|]. split; [simpl; by rewrite Hpa|].
  intros a Ha. apply every_agent_is_visited. by apply list_elem_of_further.
Qed.

(** The witness of C10: the database raises when the quota record of
    account A is loaded; account C is processed all the same. *)
Lemma quota_errors_are_isolated_witness :
  process_agent Scenario.quota_table_down Scenario.agentA Scenario.fresh
  = extend Scenario.fresh
      [ EQuotaGet "A" (inl "connection lost");
        ELog ERROR
          "Error processing twitter mentions for agent A: connection lost" ] ∧
  cursor (for_each_agent Scenario.quota_table_down
            [Scenario.agentA; Scenario.agentC] Scenario.fresh)
    Scenario.agentC = Some "1001".
Proof.
  destruct (quota_errors_are_isolated
              Scenario.quota_table_down Scenario.agentA [Scenario.agentC]
              Scenario.fresh "connection lost")
    as (calls & Hcalls & _ & Hpa & Htick & _).
  - left. reflexivity.
  - destruct Hcalls as [->|[quota ->]].
    + split; [exact Hpa|]. vm_compute. reflexivity.
    + exfalso. apply (f_equal trace) in Hpa. vm_compute in Hpa.
      discriminate Hpa.
Defined.

Lemma filter_none (P : Event → bool) l :
  Forall (λ ev, P ev = false) l → List.filter P l = [].
Proof. induction 1 as [|x l Hx _ IH]; simpl; [done|]. by rewrite Hx. Qed.

Lemma filter_all (P : Event → bool) l :
  Forall (λ ev, P ev = true) l → List.filter P l = l.
Proof.
  induction 1 as [|x l Hx _ IH]; simpl; [done|]. by rewrite Hx, IH.
Qed.

(** C8.  The loop over the mentions answers them in the order of the list.
    For every mention it gets through, the trace has the engine call with the
    account id, the mention's text and the thread id made of the account id,
    "-twitter-" and the author id, followed by the post of the returned
    lines, joined with line breaks, as a reply to the mention's id.  The loop
    either gets through all mentions or stops at the first call that raises.
    In a turn the mentions so answered are those the fetch returned, and
    these are all the engine calls and reply posts of the turn.  The posted
    text is the returned lines with one line feed (character 10) between
    each two of them and none before the first or after the last: no line
    gives the empty text, one line gives that line, and it is what the
    library's [String.concat] gives for the separator made of one line
    feed. *)
Theorem mentions_are_answered_in_fetch_order env agent :
  let answered_mention client mention reply :=
    [ EExecuteAgent (agent_id agent) (text mention)
        (agent_id agent +:+ "-twitter-" +:+ author_id mention) (inr reply);
      ECreateTweet client (join newline reply) (tweet_id mention) (inr tt) ] in
  let failed_mention client mention e tail :=
    tail = [ EExecuteAgent (agent_id agent) (text mention)
               (agent_id agent +:+ "-twitter-" +:+ author_id mention)
               (inl e) ] ∨
    ∃ reply,
      tail = [ EExecuteAgent (agent_id agent) (text mention)
                 (agent_id agent +:+ "-twitter-" +:+ author_id mention)
                 (inr reply);
               ECreateTweet client (join newline reply) (tweet_id mention)
                 (inl e) ] in
  (∀ client mentions s,
     ∃ replies tail,
       (length replies ≤ length mentions)%nat ∧
       events_since s (process_mentions env agent client mentions s).2
       = concat (zip_with (answered_mention client) mentions replies)
         ++ tail ∧
       match (process_mentions env agent client mentions s).1 with
       | inr _ => length replies = length mentions ∧ tail = []
       | inl e =>
           ∃ mention,
             mentions !! length replies = Some mention ∧
             failed_mention client mention e tail
       end) ∧
  (∀ s c q mentions,
     EGetUsersMentions c q (inr mentions)
       ∈ events_since s (process_agent env agent s) →
     ∃ replies tail,
       (length replies ≤ length (default [] (resp_data mentions)))%nat ∧
       List.filter is_downstream (events_since s (process_agent env agent s))
       = concat (zip_with (answered_mention c)
                   (default [] (resp_data mentions)) replies)
         ++ tail ∧
       (tail = [] ∨
        ∃ mention e,
          default [] (resp_data mentions) !! length replies = Some mention ∧
          failed_mention c mention e tail)) ∧
  (join newline [] = "" ∧
   (∀ line, join newline [line] = line) ∧
   (∀ line1 line2 lines,
      join newline (line1 :: line2 :: lines)
      = line1 +:+ String "010"%char (join newline (line2 :: lines))) ∧
   (∀ lines,
      join newline lines = String.concat (String "010"%char "") lines)).
Proof.
  intros answered_mention failed_mention. split; [|split].
  - intros client mentions s.
    destruct (process_mentions_run env agent client mentions s)
      as (replies & r & tail & Hlen & -> & Hend).
    exists replies, tail. split; [exact Hlen|].
    split; [apply events_since_extend|].
    simpl. destruct Hend; subst failed_mention; simpl; eauto 10.
  - intros s c q mentions Hin.
    destruct (turn_fetch_inv _ _ _ _ _ _ Hin)
      as (r & ps & qs & pre & rest & _ & _ & _ & -> & Hpre & _ & _ & Haf).
    rewrite List.filter_app. simpl. rewrite List.filter_app.
    rewrite (filter_none _ pre)
      by (eapply Forall_impl; [exact Hpre|];
          by intros [] [? ?]).
    rewrite (filter_none _ (handler_log agent r))
      by (by apply handler_log_quiet).
    rewrite app_nil_r. simpl.
    inversion Haf; subst; simpl;
      try (exists [], []; split; [simpl; lia|];
           split; [by destruct (default [] (resp_data mentions))|by left]).
    + match goal with H : loop_end _ _ _ _ _ _ |- _ =>
        pose proof (loop_end_events _ _ _ _ _ _ H) as Htail;
        exists replies, tail; inversion H; subst
      end.
      * split; [eapply Nat.lt_le_incl, lookup_lt_Some; eassumption|].
        split; [|right; eexists _, _; split; [eassumption|by left]].
        rewrite List.filter_app, !filter_all;
          [reflexivity|assumption|apply replies_are_downstream].
      * split; [eapply Nat.lt_le_incl, lookup_lt_Some; eassumption|].
        split; [|right; eexists _, _; split; [eassumption|right; eauto]].
        rewrite List.filter_app, !filter_all;
          [reflexivity|assumption|apply replies_are_downstream].
    + exists replies, []. split; [lia|]. split; [|by left].
      rewrite List.filter_app, filter_all by apply replies_are_downstream.
      reflexivity.
    + exists replies, []. split; [lia|]. split; [|by left].
      rewrite List.filter_app, filter_all by apply replies_are_downstream.
      reflexivity.
  - split; [reflexivity|]. split; [reflexivity|]. split; [reflexivity|].
    induction lines as [|line1 [|line2 lines] IH]; [reflexivity..|].
    change (join newline (line1 :: line2 :: lines))
      with (line1 +:+ String "010"%char (join newline (line2 :: lines))).
    rewrite IH. reflexivity.
Qed.

(** The witness of C8: the two mentions of the spec's scenario, both
    answered; the reply to the first one is the two returned lines with a
    line feed between them. *)
Lemma mentions_are_answered_in_fetch_order_witness :
  (∃ replies tail,
     List.filter is_downstream
       (events_since Scenario.fresh
          (process_agent (Scenario.world Scenario.two_mentions)
             Scenario.agentA Scenario.fresh))
     = concat
         (zip_with
            (reply_events Scenario.agentA
               (create_twitter_client {[ "bearer_token" := "secret" ]}))
            [Scenario.tweet1; Scenario.tweet2] replies)
       ++ tail) ∧
  ECreateTweet (create_twitter_client {[ "bearer_token" := "secret" ]})
    ("You said: hello" +:+ String "010"%char "Bye") "1000" (inr tt)
    ∈ events_since Scenario.fresh
        (process_agent (Scenario.world Scenario.two_mentions)
           Scenario.agentA Scenario.fresh).
Proof.
  destruct (mentions_are_answered_in_fetch_order
              (Scenario.world Scenario.two_mentions) Scenario.agentA)
    as (_ & Hturn & _).
  destruct (Hturn Scenario.fresh
              (create_twitter_client {[ "bearer_token" := "secret" ]})
              {| q_id := "42"; q_max_results := 10;
                 q_since_id := None;
                 q_start_time := 1714557690000 - one_day;
                 q_tweet_fields := ["created_at"; "author_id"; "text"] |}
              Scenario.two_mentions)
    as (replies & tail & _ & Hevs & _).
  - vm_compute. do 5 apply list_elem_of_further. apply list_elem_of_here.
  - split; [exists replies, tail; exact Hevs|].
    vm_compute. do 8 apply list_elem_of_further. apply list_elem_of_here.
Defined.

(** * Further properties of the entrypoint *)

(** ** Every way a cycle can go *)

(** A cycle either stops early, as [early_stop] lists, with both tables as
    they were, or makes the five calls of [before_fetch], gets its fetch
    answered and goes on as [after_fetch] says. *)
Lemma agent_body_cases env agent s :
  trace (agent_body env agent s).2
  = trace s ++ events_since s (agent_body env agent s).2 ∧
  ((early_stop env agent s (agent_body env agent s).1
      (events_since s (agent_body env agent s).2) ∧
    plugin_store (agent_body env agent s).2 = plugin_store s ∧
    quota_store (agent_body env agent s).2 = quota_store s) ∨
   (∃ config me_data mentions rest,
      twitter_config agent = Some config ∧
      truthy_dict (Some config) = true ∧
      quota_left (loaded_quota s (agent_id agent)) = true ∧
      events_since s (agent_body env agent s).2
      = before_fetch agent s config me_data
        ++ EGetUsersMentions (create_twitter_client config)
             (fetch_query env agent s config me_data) (inr mentions)
           :: rest ∧
      after_fetch agent s (create_twitter_client config) mentions
        (agent_body env agent s).1
        (plugin_store (agent_body env agent s).2)
        (quota_store (agent_body env agent s).2) rest)).
Proof.
  destruct (agent_body env agent s) as [r s'] eqn:H.
  exec_in H;
    try match goal with
      | Hl : process_mentions ?e ?a ?c ?ms ?s1 = _ |- _ =>
          destruct (process_mentions_run e a c ms s1)
            as (replies & r' & tail & Hlen & Hrun & Hend);
          rewrite Hrun in Hl; inversion Hl; subst; clear Hl
      end;
    try match goal with
      | Hend : loop_end _ _ _ _ (inr _) _ |- _ =>
          inversion Hend; subst; clear Hend
      end;
    inversion H; subst; clear H; unfold events_since; norm_state;
    rewrite drop_app_length; (split; [reflexivity|]);
    rewrite ?stored_row_record.
  all: try solve
    [ left; split; [|split; reflexivity];
      first
        [ by econstructor; eauto
        | apply config_not_valid; [assumption|];
          match goal with
          | Hc : twitter_config _ = _ |- _ => rewrite Hc
          end; first [reflexivity | assumption]
        | by eapply (fetch_raised env agent s) ] ].
  all: right; eexists _, _, _, _;
    (split; [first [reflexivity | eassumption]|]);
    (split; [first [reflexivity | assumption]|]);
    (split; [first [reflexivity | assumption]|]);
    (split; [reflexivity|]); solve [econstructor; eauto].
Qed.

(** The same for a whole turn, handler included. *)
Lemma turn_cases env agent s :
  ∃ r ps qs evs,
    (agent_body env agent s).1 = r ∧
    process_agent env agent s
    = {| plugin_store := ps; quota_store := qs;
         trace := trace s ++ evs ++ handler_log agent r |} ∧
    ((early_stop env agent s r evs ∧
      ps = plugin_store s ∧ qs = quota_store s) ∨
     (∃ config me_data mentions rest,
        twitter_config agent = Some config ∧
        truthy_dict (Some config) = true ∧
        quota_left (loaded_quota s (agent_id agent)) = true ∧
        evs = before_fetch agent s config me_data
              ++ EGetUsersMentions (create_twitter_client config)
                   (fetch_query env agent s config me_data) (inr mentions)
                 :: rest ∧
        after_fetch agent s (create_twitter_client config) mentions r
          ps qs rest)).
Proof.
  destruct (agent_body_cases env agent s) as [Htr Hcases].
  unfold process_agent.
  destruct (agent_body env agent s) as [[e|[]] [ps qs tr]]; simpl in *;
    eexists _, ps, qs, _; (split; [reflexivity|]);
      (split; [|exact Hcases]);
    unfold record; simpl; rewrite Htr at 1;
    by rewrite <- ?app_assoc, ?app_nil_r.
Qed.

(** ** The helpers of the cycle *)

(** X1.  For one account the thread id tells the authors apart: two mentions
    get the same thread id exactly when they have the same author. *)
Theorem thread_id_tells_authors_apart agent mention1 mention2 :
  thread_id_of agent mention1 = thread_id_of agent mention2
  ↔ author_id mention1 = author_id mention2.
Proof.
  unfold thread_id_of. split; [|by intros ->].
  intros H. by do 2 apply String.app_inj in H.
Qed.

(** Across accounts the thread id is not a key: an account whose id contains
    "-twitter-" can share a thread id with another account. *)
Example thread_id_clash_across_accounts :
  thread_id_of {| agent_id := "A"; twitter_enabled := true;
                  twitter_config := None |}
    {| tweet_id := "1"; author_id := "7-twitter-8"; text := "";
       created_at := "" |}
  = thread_id_of {| agent_id := "A-twitter-7"; twitter_enabled := true;
                    twitter_config := None |}
      {| tweet_id := "2"; author_id := "8"; text := ""; created_at := "" |}.
Proof. reflexivity. Qed.

(** X2.  The client depends on the five credential entries of the
    configuration only: setting or removing any other entry gives the same
    client.  Each of the five credentials of the client is the entry of the
    configuration under its own key, so a credential that is not in the
    configuration is passed as [None], whichever of the five it is. *)
Theorem client_reads_only_its_credentials (config : Config) k v :
  k ∉ [ "bearer_token"; "consumer_key"; "consumer_secret"; "access_token";
        "access_token_secret" ] →
  create_twitter_client (<[k := v]> config) = create_twitter_client config ∧
  create_twitter_client (delete k config) = create_twitter_client config ∧
  bearer_token (create_twitter_client (<[k := v]> config))
  = config !! "bearer_token" ∧
  consumer_key (create_twitter_client (<[k := v]> config))
  = config !! "consumer_key" ∧
  consumer_secret (create_twitter_client (<[k := v]> config))
  = config !! "consumer_secret" ∧
  access_token (create_twitter_client (<[k := v]> config))
  = config !! "access_token" ∧
  access_token_secret (create_twitter_client (<[k := v]> config))
  = config !! "access_token_secret" ∧
  (∀ key,
     key ∈ [ "bearer_token"; "consumer_key"; "consumer_secret";
             "access_token"; "access_token_secret" ] →
     config !! key = None →
     create_twitter_client (<[k := v]> config)
     = create_twitter_client (delete key (<[k := v]> config))).
Proof.
  intros Hk. rewrite !not_elem_of_cons in Hk.
  destruct Hk as (? & ? & ? & ? & ? & _).
  unfold create_twitter_client. simpl.
  rewrite !lookup_insert_ne, !lookup_delete_ne by congruence.
  repeat (split; [reflexivity|]).
  intros key Hkey Hnone.
  assert (Hget : ∀ key', delete key (<[k := v]> config) !! key'
                         = <[k := v]> config !! key' ∨
                         (key' = key ∧ config !! key' = None
                          ∧ delete key (<[k := v]> config) !! key' = None)).
  { intros key'. destruct (decide (key' = key)) as [->|Hne].
    - right. by rewrite lookup_delete_eq.
    - left. by rewrite lookup_delete_ne. }
  assert (Hsame : ∀ key', key' ≠ k →
                          delete key (<[k := v]> config) !! key'
                          = config !! key').
  { intros key' Hk'. destruct (Hget key') as [->|(-> & -> & ->)];
      [by rewrite lookup_insert_ne|done]. }
  rewrite !Hsame by congruence. reflexivity.
Qed.

Lemma client_reads_only_its_credentials_witness :
  create_twitter_client
    (<["proxy" := "localhost"]> {[ "bearer_token" := "secret" ]})
  = create_twitter_client {[ "bearer_token" := "secret" ]} ∧
  consumer_secret
    (create_twitter_client
       (<["proxy" := "localhost"]> {[ "bearer_token" := "secret" ]}))
  = None.
Proof.
  destruct (client_reads_only_its_credentials
              {[ "bearer_token" := "secret" ]} "proxy" "localhost")
    as (H & _ & _ & _ & Hsecret & _).
  - rewrite !not_elem_of_cons. repeat split; try discriminate.
    apply not_elem_of_nil.
  - split; [exact H|]. rewrite Hsecret. reflexivity.
Defined.

(** X3.  The cursor read at the start of a cycle is [Some m] exactly when the
    account has a row whose data has "last_tweet_id" set to [m].  No row, a
    row without data or with empty data, data without the key, and a key set
    to [None] all read as no cursor. *)
Theorem cursor_is_read_from_last_tweet_id s agent m :
  cursor s agent = Some m
  ↔ ∃ d : Json,
      plugin_store s !! (agent_id agent, "twitter", "entrypoint")
      = Some (Some d) ∧
      d !! "last_tweet_id" = Some (Some m).
Proof.
  unfold cursor, stored_row, since_id_of, dict_get, truthy_dict.
  destruct (plugin_store s !! (agent_id agent, "twitter", "entrypoint"))
    as [[d|]|] eqn:Hrow; simpl.
  - destruct (decide (size d = 0%nat)) as [Hz|Hnz].
    + rewrite bool_decide_eq_true_2 by done. simpl.
      apply map_size_empty_inv in Hz. subst d. split; [done|].
      intros (d & Hd & Hm). simplify_eq; by rewrite lookup_empty in Hm.
    + rewrite bool_decide_eq_false_2 by done. simpl. split.
      * intros Hm. exists d. split; [done|].
        destruct (d !! "last_tweet_id") as [[?|]|]; by simplify_eq.
      * intros (d' & Hd & Hm). simplify_eq. by rewrite Hm.
  - split; [done|]. by intros (d & Hd & _).
  - split; [done|]. by intros (d & Hd & _).
Qed.

(** ** Cycles that stop early *)

(** The events and the tables of a whole turn, by cases. *)
Lemma turn_events env agent s :
  ∃ r evs,
    (agent_body env agent s).1 = r ∧
    events_since s (process_agent env agent s)
    = evs ++ handler_log agent r ∧
    ((early_stop env agent s r evs ∧
      plugin_store (process_agent env agent s) = plugin_store s ∧
      quota_store (process_agent env agent s) = quota_store s) ∨
     (∃ config me_data mentions rest,
        twitter_config agent = Some config ∧
        truthy_dict (Some config) = true ∧
        quota_left (loaded_quota s (agent_id agent)) = true ∧
        evs = before_fetch agent s config me_data
              ++ EGetUsersMentions (create_twitter_client config)
                   (fetch_query env agent s config me_data) (inr mentions)
                 :: rest ∧
        after_fetch agent s (create_twitter_client config) mentions r
          (plugin_store (process_agent env agent s))
          (quota_store (process_agent env agent s)) rest)).
Proof.
  destruct (turn_cases env agent s) as (r & ps & qs & evs & Hr & -> & Hcases).
  exists r, evs. split; [exact Hr|]. split; [apply events_since_state|].
  exact Hcases.
Qed.

(** After the fetch was answered a turn only writes the cursor row, calls the
    engine, posts replies, charges the quota and logs. *)
Lemma turn_rest_is_late agent s client mentions r ps qs rest :
  after_fetch agent s client mentions r ps qs rest →
  Forall (λ ev, is_late ev = true) (rest ++ handler_log agent r).
Proof.
  assert (Hd : ∀ l, Forall (λ ev, is_downstream ev = true) l →
                    Forall (λ ev, is_late ev = true) l).
  { intros l Hl. eapply Forall_impl; [exact Hl|]. by intros []. }
  intros Haf. apply Forall_app. split.
  - destruct Haf; repeat first
      [ apply Forall_nil_2 | apply Forall_cons_2; [reflexivity|]
      | apply Forall_app_2 ];
      try (apply Hd, replies_are_downstream).
    eapply Hd, loop_end_events; eassumption.
  - destruct r; repeat constructor.
Qed.

(** X4.  An account that has quota left but whose configuration is empty is
    skipped: the body ends without an exception after a warning line, the
    turn consists of the quota load, the quota check and that line, no client
    is built, and both tables stay as they were. *)
Theorem account_without_config_is_skipped env agent s :
  EHasTwitterQuota (agent_id agent) (inr true)
    ∈ events_since s (process_agent env agent s) →
  truthy_dict (twitter_config agent) = false →
  (agent_body env agent s).1 = inr tt ∧
  events_since s (process_agent env agent s)
  = [ EQuotaGet (agent_id agent) (inr (loaded_quota s (agent_id agent)));
      EHasTwitterQuota (agent_id agent) (inr true);
      ELog WARNING ("Agent " +:+ agent_id agent
                    +:+ " has no valid twitter config") ] ∧
  plugin_store (process_agent env agent s) = plugin_store s ∧
  quota_store (process_agent env agent s) = quota_store s.
Proof.
  intros Hin Hcfg.
  destruct (turn_events env agent s)
    as (r & evs & Hr & Hevs & [(Hearly & Hps & Hqs)|Hfetched]).
  - rewrite Hr, Hevs in *.
    destruct Hearly; cbn [handler_log app] in *;
      try (match goal with
           | Hc : twitter_config _ = Some _ |- _ => rewrite Hc in Hcfg
           end; congruence);
      try (in_cases Hin; fail).
    auto.
  - destruct Hfetched as (config & ? & ? & ? & Hc & Ht & _).
    rewrite Hc in Hcfg. congruence.
Qed.

Lemma account_without_config_is_skipped_witness :
  count is_log
    (events_since Cases.fresh
       (process_agent (Scenario.world Scenario.two_mentions) Cases.agentD
          Cases.fresh)) = 1%nat.
Proof.
  destruct (account_without_config_is_skipped
              (Scenario.world Scenario.two_mentions) Cases.agentD Cases.fresh)
    as (_ & Hevs & _).
  - vm_compute. apply list_elem_of_further, list_elem_of_here.
  - reflexivity.
  - rewrite Hevs. reflexivity.
Defined.

(** X5.  When the platform does not resolve the account's own identity
    ([get_me] answers without data), the cycle stops there: the failure is
    logged as an error by the body itself, which ends without an exception;
    nothing is fetched, the cursor row is not read, and both tables stay as
    they were. *)
Theorem unknown_identity_skips_the_account env agent s c :
  EGetMe c (inr None) ∈ events_since s (process_agent env agent s) →
  (agent_body env agent s).1 = inr tt ∧
  events_since s (process_agent env agent s)
  = [ EQuotaGet (agent_id agent) (inr (loaded_quota s (agent_id agent)));
      EHasTwitterQuota (agent_id agent) (inr true);
      ECreateClient c;
      EGetMe c (inr None);
      ELog ERROR ("Failed to get Twitter user info for agent "
                  +:+ agent_id agent) ] ∧
  (∃ config,
     twitter_config agent = Some config ∧ c = create_twitter_client config) ∧
  plugin_store (process_agent env agent s) = plugin_store s ∧
  quota_store (process_agent env agent s) = quota_store s.
Proof.
  intros Hin.
  destruct (turn_events env agent s)
    as (r & evs & Hr & Hevs & [(Hearly & Hps & Hqs)|Hfetched]).
  - rewrite Hr, Hevs in *.
    destruct Hearly; unfold before_fetch in *; cbn [handler_log app] in *;
      try (in_cases Hin; fail).
    in_cases Hin. inversion Hin; subst. eauto 10.
  - destruct Hfetched as (config & me & mentions & rest & _ & _ & _ & -> & Haf).
    exfalso. rewrite Hevs in Hin. unfold before_fetch in Hin.
    pose proof (turn_rest_is_late _ _ _ _ _ _ _ _ Haf) as Hno.
    rewrite Forall_forall in Hno.
    simpl in Hin. rewrite app_comm_cons in Hin.
    repeat (apply elem_of_cons in Hin as [Hin|Hin]; [discriminate|]).
    apply Hno in Hin. discriminate.
Qed.

Lemma unknown_identity_skips_the_account_witness :
  count is_fetch
    (events_since Scenario.fresh
       (process_agent Cases.nobody Scenario.agentA Scenario.fresh)) = 0%nat.
Proof.
  destruct (unknown_identity_skips_the_account
              Cases.nobody Scenario.agentA Scenario.fresh
              (create_twitter_client {[ "bearer_token" := "secret" ]}))
    as (_ & Hevs & _).
  - vm_compute. do 3 apply list_elem_of_further. apply list_elem_of_here.
  - rewrite Hevs. reflexivity.
Defined.

(** ** The fetch *)

(** Every fetch of a turn, answered or not, comes right after the five calls
    of [before_fetch] and carries the arguments of [fetch_query]. *)
Lemma turn_fetch_query env agent s c q r :
  EGetUsersMentions c q r ∈ events_since s (process_agent env agent s) →
  ∃ config me_data later,
    twitter_config agent = Some config ∧
    truthy_dict (Some config) = true ∧
    c = create_twitter_client config ∧
    q = fetch_query env agent s config me_data ∧
    events_since s (process_agent env agent s)
    = before_fetch agent s config me_data
      ++ EGetUsersMentions c q r :: later.
Proof.
  intros Hin.
  destruct (turn_events env agent s)
    as (r0 & evs & Hr & Hevs & [(Hearly & Hps & Hqs)|Hfetched]).
  - rewrite Hevs in *.
    destruct Hearly; unfold before_fetch in *; cbn [handler_log app] in *;
      try (in_cases Hin; fail).
    in_cases Hin. inversion Hin; subst. eauto 10.
  - destruct Hfetched
      as (config & me & mentions & rest & Hc & Ht & _ & -> & Haf).
    rewrite Hevs in *.
    pose proof (turn_rest_is_late _ _ _ _ _ _ _ _ Haf) as Hno.
    rewrite Forall_forall in Hno.
    rewrite <- app_assoc in Hin. simpl in Hin.
    repeat (apply elem_of_cons in Hin as [Hin|Hin]; [try discriminate|]).
    + inversion Hin; subst. rewrite <- app_assoc. simpl. eauto 10.
    + apply Hno in Hin. discriminate.
Qed.

Lemma fetch_arguments_since env agent s c q r :
  EGetUsersMentions c q r ∈ events_since s (process_agent env agent s) →
  q_since_id q = cursor s agent.
Proof.
  intros Hin.
  by destruct (turn_fetch_query _ _ _ _ _ _ Hin)
    as (config & me & later & _ & _ & _ & -> & _).
Qed.

(** X6.  Every fetch of a turn is made with the client built from the
    account's configuration, for the user id that [get_me] returned, with at
    most 10 results, with the cursor stored for the account as [since_id]
    ([None] when there is none), and with a start time exactly one day before
    the clock reading taken right before the call. *)
Theorem fetch_arguments env agent s c q r :
  EGetUsersMentions c q r ∈ events_since s (process_agent env agent s) →
  q_since_id q = cursor s agent ∧
  q_max_results q = 10 ∧
  q_tweet_fields q = ["created_at"; "author_id"; "text"] ∧
  ∃ config me_data earlier later,
    twitter_config agent = Some config ∧
    c = create_twitter_client config ∧
    events_since s (process_agent env agent s)
    = earlier ++ EGetUsersMentions c q r :: later ∧
    EGetMe c (inr (Some me_data)) ∈ earlier ∧
    q_id q = user_id me_data ∧
    q_start_time q = clock env (trace s ++ earlier) - 86400000.
Proof.
  intros Hin.
  destruct (turn_fetch_query _ _ _ _ _ _ Hin)
    as (config & me & later & Hc & _ & -> & -> & Hevs).
  repeat split; try reflexivity.
  exists config, me, (before_fetch agent s config me), later.
  repeat split; try assumption; try reflexivity.
  unfold before_fetch. do 3 apply list_elem_of_further.
  apply list_elem_of_here.
Qed.

Lemma fetch_arguments_witness :
  ∃ q r,
    EGetUsersMentions (create_twitter_client {[ "bearer_token" := "secret" ]})
      q r
      ∈ events_since Scenario.with_cursor
          (process_agent (Scenario.world Scenario.two_mentions)
             Scenario.agentA Scenario.with_cursor) ∧
    q_since_id q = Some "900" ∧ q_start_time q = 1714471290000.
Proof.
  eexists {| q_id := "42"; q_max_results := 10; q_since_id := Some "900";
             q_start_time := 1714557690000 - one_day;
             q_tweet_fields := ["created_at"; "author_id"; "text"] |},
          (inr Scenario.two_mentions).
  assert (Hin :
    EGetUsersMentions (create_twitter_client {[ "bearer_token" := "secret" ]})
      {| q_id := "42"; q_max_results := 10; q_since_id := Some "900";
         q_start_time := 1714557690000 - one_day;
         q_tweet_fields := ["created_at"; "author_id"; "text"] |}
      (inr Scenario.two_mentions)
      ∈ events_since Scenario.with_cursor
          (process_agent (Scenario.world Scenario.two_mentions)
             Scenario.agentA Scenario.with_cursor)).
  { vm_compute. do 5 apply list_elem_of_further. apply list_elem_of_here. }
  split; [exact Hin|].
  destruct (fetch_arguments _ _ _ _ _ _ Hin) as (Hsince & _).
  split; [rewrite Hsince|]; reflexivity.
Defined.

(** X7.  The cursor a turn has written is the cursor the next turn of that
    account fetches with, whatever else the first turn did afterwards and
    whatever the next turn meets. *)
Theorem next_fetch_uses_the_written_cursor env agent s pd env' c q r :
  EPluginSave pd (inr tt) ∈ events_since s (process_agent env agent s) →
  EGetUsersMentions c q r
    ∈ events_since (process_agent env agent s)
        (process_agent env' agent (process_agent env agent s)) →
  pd_data pd = Some {[ "last_tweet_id" := q_since_id q ]} ∧
  cursor (process_agent env agent s) agent = q_since_id q.
Proof.
  intros Hsave Hfetch.
  apply fetch_arguments_since in Hfetch. rewrite Hfetch.
  destruct (turn_events env agent s)
    as (r0 & evs & Hr & Hevs & [(Hearly & Hps & Hqs)|Hfetched]).
  - exfalso. rewrite Hevs in *.
    destruct Hearly; unfold before_fetch in *; cbn [handler_log app] in *;
      in_cases Hsave.
  - destruct Hfetched
      as (config & me & mentions & rest & Hc & Ht & _ & -> & Haf).
    rewrite Hevs in Hsave. unfold before_fetch in Hsave.
    assert (Hhl : EPluginSave pd (inr tt) ∉ handler_log agent r0)
      by (destruct r0; simpl; intros Hx; in_cases Hx).
    rewrite <- !app_assoc in Hsave. simpl in Hsave.
    repeat (apply elem_of_cons in Hsave as [Hsave|Hsave]; [discriminate|]).
    apply elem_of_app in Hsave as [Hsave|Hsave]; [|contradiction].
    assert (Hrep : ∀ l, Forall (λ ev, is_downstream ev = true) l →
                        EPluginSave pd (inr tt) ∉ l).
    { intros l Hl Hx. rewrite Forall_forall in Hl. apply Hl in Hx.
      discriminate. }
    inversion Haf; subst; settle_turn; in_cases Hsave;
      try (inversion Hsave; subst;
           match goal with
           | Hw : plugin_store _ = <[_ := _]> _ |- _ =>
               rewrite (cursor_written _ _ _ _ Hw)
           end; split; reflexivity);
      exfalso;
      first [ eapply Hrep; [apply replies_are_downstream|eassumption]
            | eapply Hrep; [eapply loop_end_events; eassumption|eassumption] ].
Qed.

Lemma next_fetch_uses_the_written_cursor_witness :
  cursor (process_agent (Scenario.world Scenario.two_mentions)
            Scenario.agentA Scenario.fresh) Scenario.agentA = Some "1001".
Proof.
  destruct (next_fetch_uses_the_written_cursor
              (Scenario.world Scenario.two_mentions) Scenario.agentA
              Scenario.fresh (cursor_row Scenario.agentA (Some "1001"))
              (Scenario.world Scenario.no_mentions)
              (create_twitter_client {[ "bearer_token" := "secret" ]})
              {| q_id := "42"; q_max_results := 10;
                 q_since_id := Some "1001";
                 q_start_time := 1714557690000 - one_day;
                 q_tweet_fields := ["created_at"; "author_id"; "text"] |}
              (inr Scenario.no_mentions))
    as (_ & Hcur).
  - vm_compute. do 6 apply list_elem_of_further. apply list_elem_of_here.
  - vm_compute. do 5 apply list_elem_of_further. apply list_elem_of_here.
  - exact Hcur.
Defined.

(** ** Failures of the two writes *)

Lemma downstream_in (l : list Event) ev :
  Forall (λ ev, is_downstream ev = true) l → ev ∈ l →
  is_downstream ev = true.
Proof. intros Hl Hin. rewrite Forall_forall in Hl. by apply Hl. Qed.

Lemma replies_reply_posts agent client mentions
    (replies : list (list string)) :
  length replies = length mentions →
  count is_reply_post
    (concat (zip_with (reply_events agent client) mentions replies))
  = length mentions.
Proof.
  revert replies. induction mentions as [|m ms IH]; intros [|r rs] Hlen;
    simpl in *; try done.
  unfold count in *. simpl. f_equal. apply IH. lia.
Qed.

(** X8.  When the write of the cursor row raises, the cycle ends there: the
    only event after it is the error line of the handler, no mention is
    answered, the quota is not charged and both tables stay as they were, so
    the next turn fetches with the old cursor. *)
Theorem failed_cursor_write_ends_the_cycle env agent s pd e :
  EPluginSave pd (inl e) ∈ events_since s (process_agent env agent s) →
  (agent_body env agent s).1 = inl e ∧
  (∃ pre,
     events_since s (process_agent env agent s)
     = pre ++ [EPluginSave pd (inl e); ELog ERROR (error_msg agent e)] ∧
     count is_downstream pre = 0%nat) ∧
  count is_quota_consumption (events_since s (process_agent env agent s))
  = 0%nat ∧
  plugin_store (process_agent env agent s) = plugin_store s ∧
  cursor (process_agent env agent s) agent = cursor s agent ∧
  quota_store (process_agent env agent s) = quota_store s.
Proof.
  intros Hin.
  destruct (turn_events env agent s)
    as (r0 & evs & Hr & Hevs & [(Hearly & Hps & Hqs)|Hfetched]).
  - exfalso. rewrite Hevs in *.
    destruct Hearly; unfold before_fetch in *; cbn [handler_log app] in *;
      in_cases Hin.
  - destruct Hfetched
      as (config & me & mentions & rest & Hc & Ht & _ & -> & Haf).
    rewrite Hr. rewrite Hevs in *. unfold before_fetch in *.
    rewrite <- !app_assoc in *. simpl in Hin.
    repeat (apply elem_of_cons in Hin as [Hin|Hin]; [discriminate|]).
    inversion Haf; subst; settle_turn; in_cases Hin;
      try (apply downstream_in in Hin;
           [discriminate
           |first [apply replies_are_downstream
                  |eapply loop_end_events; eassumption]]).
    inversion Hin; subst. simpl.
    split; [reflexivity|]. split.
    { eexists [_; _; _; _; _; _]. split; reflexivity. }
    split; [reflexivity|]. split; [reflexivity|].
    split; [by apply cursor_same|reflexivity].
Qed.

Lemma failed_cursor_write_ends_the_cycle_witness :
  cursor (process_agent (Cases.broken_db Cases.is_save) Scenario.agentA
            Scenario.with_cursor) Scenario.agentA = Some "900".
Proof.
  destruct (failed_cursor_write_ends_the_cycle
              (Cases.broken_db Cases.is_save) Scenario.agentA
              Scenario.with_cursor (cursor_row Scenario.agentA (Some "1001"))
              "database is locked")
    as (_ & _ & _ & _ & Hcur & _).
  - vm_compute. do 6 apply list_elem_of_further. apply list_elem_of_here.
  - rewrite Hcur. reflexivity.
Defined.

(** The text posted for a reply, spelled with the library's [String.concat]
    and a separator of one line feed. *)
Lemma join_newline_concat lines :
  join newline lines = String.concat (String "010"%char "") lines.
Proof.
  induction lines as [|line1 [|line2 lines] IH]; [reflexivity..|].
  change (join newline (line1 :: line2 :: lines))
    with (line1 +:+ String "010"%char (join newline (line2 :: lines))).
  rewrite IH. reflexivity.
Qed.

Lemma replies_spelled agent client mentions (replies : list (list string)) :
  zip_with (reply_events agent client) mentions replies
  = zip_with
      (λ mention reply,
         [ EExecuteAgent (agent_id agent) (text mention)
             (agent_id agent +:+ "-twitter-" +:+ author_id mention)
             (inr reply);
           ECreateTweet client (String.concat (String "010"%char "") reply)
             (tweet_id mention) (inr tt) ])
      mentions replies.
Proof.
  revert replies. induction mentions as [|m ms IH]; intros [|r rs];
    cbn [zip_with]; [reflexivity..|].
  unfold reply_events at 1. by rewrite join_newline_concat, IH.
Qed.

(** X9.  When the quota update raises, every mention of the fetch has already
    been answered and its reply posted: between the cursor write and the
    failed update the trace has, for each fetched mention in the order of the
    fetch, the engine call for that mention, which returned, and the post of
    the returned lines as a reply to that mention, which returned too, and
    nothing else.  The cursor has moved, the handler logs the error, and the
    quota record stays uncharged. *)
Theorem failed_quota_update_keeps_the_replies env agent s a e :
  EAddTwitter a (inl e) ∈ events_since s (process_agent env agent s) →
  a = agent_id agent ∧
  (agent_body env agent s).1 = inl e ∧
  (∃ pre,
     events_since s (process_agent env agent s)
     = pre ++ [EAddTwitter a (inl e); ELog ERROR (error_msg agent e)]) ∧
  quota_store (process_agent env agent s) = quota_store s ∧
  ∃ c q mentions,
    EGetUsersMentions c q (inr mentions)
      ∈ events_since s (process_agent env agent s) ∧
    count is_reply_post (events_since s (process_agent env agent s))
    = length (default [] (resp_data mentions)) ∧
    cursor (process_agent env agent s) agent
    = resp_meta mentions !! "newest_id" ∧
    ∃ replies earlier,
      length replies = length (default [] (resp_data mentions)) ∧
      count is_downstream earlier = 0%nat ∧
      events_since s (process_agent env agent s)
      = earlier
        ++ EGetUsersMentions c q (inr mentions)
        :: EPluginSave (cursor_row agent (resp_meta mentions !! "newest_id"))
             (inr tt)
        :: concat
             (zip_with
                (λ mention reply,
                   [ EExecuteAgent (agent_id agent) (text mention)
                       (agent_id agent +:+ "-twitter-"
                        +:+ author_id mention)
                       (inr reply);
                     ECreateTweet c
                       (String.concat (String "010"%char "") reply)
                       (tweet_id mention) (inr tt) ])
                (default [] (resp_data mentions)) replies)
        ++ [EAddTwitter a (inl e); ELog ERROR (error_msg agent e)].
Proof.
  intros Hin.
  destruct (turn_events env agent s)
    as (r0 & evs & Hr & Hevs & [(Hearly & Hps & Hqs)|Hfetched]).
  - exfalso. rewrite Hevs in *.
    destruct Hearly; unfold before_fetch in *; cbn [handler_log app] in *;
      in_cases Hin.
  - destruct Hfetched
      as (config & me & mentions & rest & Hc & Ht & _ & -> & Haf).
    rewrite Hr. rewrite Hevs in *. unfold before_fetch in *.
    rewrite <- !app_assoc in *. simpl in Hin.
    repeat (apply elem_of_cons in Hin as [Hin|Hin]; [discriminate|]).
    inversion Haf; subst; settle_turn; in_cases Hin;
      try (apply downstream_in in Hin;
           [discriminate
           |first [apply replies_are_downstream
                  |eapply loop_end_events; eassumption]]).
    inversion Hin; subst. cbn [handler_log].
    repeat progress (cbn [app]; rewrite <- ?app_assoc).
    split; [reflexivity|]. split; [reflexivity|]. split.
    { eexists (_ :: _ :: _ :: _ :: _ :: _ :: _ :: concat _).
      cbn [app]. reflexivity. }
    split; [first [assumption | reflexivity]|].
    eexists _, _, mentions. split; [|split; [|split]].
    + do 5 apply list_elem_of_further. apply list_elem_of_here.
    + repeat first [rewrite count_app | rewrite count_cons]. simpl.
      rewrite replies_reply_posts by assumption. unfold count. simpl. lia.
    + by eapply cursor_written.
    + exists replies. eexists [_; _; _; _; _].
      split; [assumption|].
      split; [|rewrite replies_spelled; reflexivity]. reflexivity.
Qed.

Lemma failed_quota_update_keeps_the_replies_witness :
  quota_store (process_agent (Cases.broken_db Cases.is_add) Scenario.agentA
                 Scenario.fresh) = quota_store Scenario.fresh ∧
  count is_reply_post
    (events_since Scenario.fresh
       (process_agent (Cases.broken_db Cases.is_add) Scenario.agentA
          Scenario.fresh)) = 2%nat.
Proof.
  destruct (failed_quota_update_keeps_the_replies
              (Cases.broken_db Cases.is_add) Scenario.agentA Scenario.fresh
              "A" "database is locked")
    as (_ & _ & _ & Hq & _).
  - vm_compute. do 11 apply list_elem_of_further. apply list_elem_of_here.
  - split; [exact Hq|]. vm_compute. reflexivity.
Defined.

(** ** What a turn touches *)

Lemma own_replies agent config mentions (replies : list (list string)) :
  twitter_config agent = Some config →
  truthy_dict (Some config) = true →
  Forall (own_call agent)
    (concat (zip_with (reply_events agent (create_twitter_client config))
               mentions replies)).
Proof.
  intros Hc Ht. revert replies.
  induction mentions as [|m ms IH]; intros [|r rs]; simpl;
    try apply Forall_nil_2.
  repeat (apply Forall_cons_2; [own_event|]). apply IH.
Qed.

Lemma own_loop_end agent config mentions k r tail :
  twitter_config agent = Some config →
  truthy_dict (Some config) = true →
  loop_end agent (create_twitter_client config) mentions k r tail →
  Forall (own_call agent) tail.
Proof.
  intros Hc Ht Hend.
  destruct Hend; repeat (apply Forall_cons_2; [own_event|]);
    apply Forall_nil_2.
Qed.

Lemma own_turn env agent s :
  Forall (own_call agent) (events_since s (process_agent env agent s)).
Proof.
  destruct (turn_events env agent s)
    as (r0 & evs & Hr & -> & [(Hearly & Hps & Hqs)|Hfetched]).
  - apply Forall_app. split.
    + destruct Hearly; unfold before_fetch; cbn [app];
        repeat (apply Forall_cons_2; [own_event|]); apply Forall_nil_2.
    + destruct r0; repeat (apply Forall_cons_2; [own_event|]);
        apply Forall_nil_2.
  - destruct Hfetched
      as (config & me & mentions & rest & Hc & Ht & _ & -> & Haf).
    unfold before_fetch. cbn [app].
    repeat (apply Forall_cons_2; [own_event|]).
    apply Forall_app. split.
    + inversion Haf; subst;
        repeat first
          [ apply Forall_nil_2
          | apply Forall_cons_2; [own_event|]
          | apply Forall_app_2
          | by apply own_replies
          | by eapply own_loop_end ].
    + destruct r0; repeat (apply Forall_cons_2; [own_event|]);
        apply Forall_nil_2.
Qed.

(** X10.  Every call of a turn is made for the turn's own account: a call
    into the database or to the engine names that account and no other, and a
    call to the platform uses the client built from that account's own,
    non-empty configuration. *)
Theorem turn_calls_are_for_its_own_account env agent s ev :
  ev ∈ events_since s (process_agent env agent s) →
  (∀ a, event_account ev = Some a → a = agent_id agent) ∧
  (∀ c, event_client ev = Some c →
        ∃ config,
          twitter_config agent = Some config ∧
          truthy_dict (Some config) = true ∧
          c = create_twitter_client config).
Proof.
  intros Hin. pose proof (own_turn env agent s) as Hown.
  rewrite Forall_forall in Hown. exact (Hown _ Hin).
Qed.

Lemma turn_calls_are_for_its_own_account_witness :
  ∃ config,
    twitter_config Scenario.agentA = Some config ∧
    truthy_dict (Some config) = true ∧
    create_twitter_client {[ "bearer_token" := "secret" ]}
    = create_twitter_client config.
Proof.
  destruct (turn_calls_are_for_its_own_account
              (Scenario.world Scenario.two_mentions) Scenario.agentA
              Scenario.fresh
              (ECreateTweet
                 (create_twitter_client {[ "bearer_token" := "secret" ]})
                 ("You said: are you there" +:+ newline +:+ "Bye") "1001"
                 (inr tt)))
    as (_ & Hc).
  - vm_compute. do 10 apply list_elem_of_further. apply list_elem_of_here.
  - exact (Hc _ eq_refl).
Defined.

Lemma replies_count_other (P : Event → bool) agent client mentions
    (replies : list (list string)) :
  (∀ ev, is_downstream ev = true → P ev = false) →
  count P (concat (zip_with (reply_events agent client) mentions replies))
  = 0%nat.
Proof.
  intros HP. apply count_none.
  eapply downstream_not; [exact HP|apply replies_are_downstream].
Qed.

Lemma tail_count_other (P : Event → bool) agent client mentions k r tail :
  (∀ ev, is_downstream ev = true → P ev = false) →
  loop_end agent client mentions k r tail →
  count P tail = 0%nat.
Proof.
  intros HP Hend. apply count_none.
  eapply downstream_not; [exact HP|eapply loop_end_events; eassumption].
Qed.

Lemma replies_posts_and_calls agent client mentions
    (replies : list (list string)) :
  count is_reply_post
    (concat (zip_with (reply_events agent client) mentions replies))
  = count is_engine_call
      (concat (zip_with (reply_events agent client) mentions replies)).
Proof.
  revert replies. induction mentions as [|m ms IH]; intros [|r rs];
    simpl; try done.
  unfold count in *. simpl. f_equal. apply IH.
Qed.

Lemma tail_posts_and_calls agent client mentions k r tail :
  loop_end agent client mentions k r tail →
  (count is_reply_post tail ≤ count is_engine_call tail)%nat.
Proof. destruct 1; unfold count; simpl; lia. Qed.

(** How often a turn makes each of its calls. *)
Lemma turn_call_counts env agent s :
  let evs := events_since s (process_agent env agent s) in
  (count is_fetch evs ≤ 1)%nat ∧
  (count is_cursor_write evs ≤ 1)%nat ∧
  (count is_quota_consumption evs ≤ 1)%nat ∧
  (count is_log evs ≤ 1)%nat ∧
  (count is_cursor_write evs ≤ count is_fetch_answer evs)%nat ∧
  (count is_quota_consumption evs ≤ count is_cursor_write evs)%nat ∧
  (count is_reply_post evs ≤ count is_engine_call evs)%nat.
Proof.
  intros evs. subst evs.
  destruct (turn_events env agent s)
    as (r0 & evs & Hr & -> & [(Hearly & Hps & Hqs)|Hfetched]).
  - destruct Hearly; unfold before_fetch, count; simpl; lia.
  - destruct Hfetched
      as (config & me & mentions & rest & Hc & Ht & _ & -> & Haf).
    unfold before_fetch.
    inversion Haf; subst;
      try match goal with
        | Hend : loop_end _ _ _ _ _ _ |- _ =>
            pose proof (tail_posts_and_calls _ _ _ _ _ _ Hend);
            pose proof (tail_count_other is_fetch _ _ _ _ _ _
                          ltac:(by intros []) Hend);
            pose proof (tail_count_other is_cursor_write _ _ _ _ _ _
                          ltac:(by intros []) Hend);
            pose proof (tail_count_other is_quota_consumption _ _ _ _ _ _
                          ltac:(by intros []) Hend);
            pose proof (tail_count_other is_log _ _ _ _ _ _
                          ltac:(by intros []) Hend);
            pose proof (tail_count_other is_fetch_answer _ _ _ _ _ _
                          ltac:(by intros []) Hend)
        end;
      cbn [handler_log app];
      repeat first [rewrite count_app | rewrite count_cons];
      rewrite ?(replies_count_other is_fetch) by (by intros []);
      rewrite ?(replies_count_other is_cursor_write) by (by intros []);
      rewrite ?(replies_count_other is_quota_consumption) by (by intros []);
      rewrite ?(replies_count_other is_log) by (by intros []);
      rewrite ?(replies_count_other is_fetch_answer) by (by intros []);
      rewrite ?replies_posts_and_calls;
      change (count is_fetch []) with 0%nat;
      change (count is_cursor_write []) with 0%nat;
      change (count is_quota_consumption []) with 0%nat;
      change (count is_log []) with 0%nat;
      change (count is_fetch_answer []) with 0%nat;
      change (count is_reply_post []) with 0%nat;
      change (count is_engine_call []) with 0%nat;
      cbn -[count]; lia.
Qed.

(** A cursor write of a turn comes after the answered fetch of the turn. *)
Lemma cursor_write_follows_fetch env agent s pre ev post :
  events_since s (process_agent env agent s) = pre ++ ev :: post →
  is_cursor_write ev = true →
  ∃ c q mentions, EGetUsersMentions c q (inr mentions) ∈ pre.
Proof.
  intros Heq Hw.
  destruct (turn_events env agent s)
    as (r0 & evs & Hr & Hevs & [(Hearly & Hps & Hqs)|Hfetched]);
    rewrite Hevs in Heq.
  - exfalso. apply elem_of_middle in Heq.
    destruct Hearly; unfold before_fetch in *; cbn [handler_log app] in *;
      in_cases Heq; subst; discriminate.
  - destruct Hfetched
      as (config & me & mentions & rest & Hc & Ht & _ & -> & Haf).
    replace ((before_fetch agent s config me
              ++ EGetUsersMentions (create_twitter_client config)
                   (fetch_query env agent s config me) (inr mentions)
                 :: rest) ++ handler_log agent r0)
      with ((before_fetch agent s config me
             ++ [EGetUsersMentions (create_twitter_client config)
                   (fetch_query env agent s config me) (inr mentions)])
            ++ (rest ++ handler_log agent r0)) in Heq
      by (by rewrite <- !app_assoc).
    apply (split_past is_cursor_write) in Heq as (pre' & -> & _);
      [|unfold before_fetch; repeat constructor|assumption].
    eexists _, _, mentions. rewrite !elem_of_app, list_elem_of_singleton.
    auto.
Qed.

(** A call of [add_twitter] comes after a cursor write that returned. *)
Lemma quota_update_follows_cursor_write env agent s pre ev post :
  events_since s (process_agent env agent s) = pre ++ ev :: post →
  is_quota_consumption ev = true →
  ∃ pd, EPluginSave pd (inr tt) ∈ pre.
Proof.
  intros Heq Hw.
  destruct (turn_events env agent s)
    as (r0 & evs & Hr & Hevs & [(Hearly & Hps & Hqs)|Hfetched]);
    rewrite Hevs in Heq.
  - exfalso. apply elem_of_middle in Heq.
    destruct Hearly; unfold before_fetch in *; cbn [handler_log app] in *;
      in_cases Heq; subst; discriminate.
  - destruct Hfetched
      as (config & me & mentions & rest & Hc & Ht & _ & -> & Haf).
    replace ((before_fetch agent s config me
              ++ EGetUsersMentions (create_twitter_client config)
                   (fetch_query env agent s config me) (inr mentions)
                 :: rest) ++ handler_log agent r0)
      with ((before_fetch agent s config me
             ++ [EGetUsersMentions (create_twitter_client config)
                   (fetch_query env agent s config me) (inr mentions)])
            ++ (rest ++ handler_log agent r0)) in Heq
      by (by rewrite <- !app_assoc).
    apply (split_past is_quota_consumption) in Heq as (pre' & -> & Hrest);
      [|unfold before_fetch; repeat constructor|assumption].
    revert Hrest. inversion Haf; subst; intros Hrest;
      try (exfalso; apply elem_of_middle in Hrest;
           cbn [handler_log app] in Hrest; in_cases Hrest; subst;
           discriminate).
    all: match type of Hrest with
         | (?x :: ?l) ++ ?hl = _ =>
             apply (split_past is_quota_consumption [x] (l ++ hl)) in Hrest
               as (pre'' & -> & _); [|repeat constructor|assumption]
         end.
    all: eexists; apply elem_of_app; right; apply elem_of_app; left;
      apply list_elem_of_here.
Qed.

(** X11.  A turn fetches at most once, writes the cursor row at most once,
    calls [add_twitter] at most once and logs at most one line, and never
    posts more replies than it made engine calls.  It writes the cursor only
    after its fetch was answered: wherever a cursor write sits in the trace
    of the turn, an answered fetch sits before it.  It calls [add_twitter]
    only after the cursor was written: wherever that call sits, a cursor
    write that returned sits before it. *)
Theorem turn_makes_each_call_at_most_once env agent s :
  let evs := events_since s (process_agent env agent s) in
  (count is_fetch evs ≤ 1)%nat ∧
  (count is_cursor_write evs ≤ 1)%nat ∧
  (count is_quota_consumption evs ≤ 1)%nat ∧
  (count is_log evs ≤ 1)%nat ∧
  (count is_cursor_write evs ≤ count is_fetch_answer evs)%nat ∧
  (count is_quota_consumption evs ≤ count is_cursor_write evs)%nat ∧
  (count is_reply_post evs ≤ count is_engine_call evs)%nat ∧
  (∀ pre ev post,
     evs = pre ++ ev :: post →
     is_cursor_write ev = true →
     ∃ c q mentions, EGetUsersMentions c q (inr mentions) ∈ pre) ∧
  (∀ pre ev post,
     evs = pre ++ ev :: post →
     is_quota_consumption ev = true →
     ∃ pd, EPluginSave pd (inr tt) ∈ pre).
Proof.
  intros evs. subst evs.
  destruct (turn_call_counts env agent s)
    as (H1 & H2 & H3 & H4 & H5 & H6 & H7).
  repeat (split; [assumption|]).
  split.
  - intros pre ev post. apply cursor_write_follows_fetch.
  - intros pre ev post. apply quota_update_follows_cursor_write.
Qed.

(** In the two-mention scenario the quota update is the last call of the
    turn, and the cursor write that returned sits before it. *)
Lemma turn_makes_each_call_at_most_once_witness :
  ∃ pd,
    EPluginSave pd (inr tt)
      ∈ take 11 (events_since Scenario.fresh
                   (process_agent (Scenario.world Scenario.two_mentions)
                      Scenario.agentA Scenario.fresh)).
Proof.
  destruct (turn_makes_each_call_at_most_once
              (Scenario.world Scenario.two_mentions) Scenario.agentA
              Scenario.fresh)
    as (_ & _ & _ & _ & _ & _ & _ & _ & Horder).
  apply (Horder _ (EAddTwitter "A" (inr tt)) []).
  - vm_compute. reflexivity.
  - reflexivity.
Defined.

(** X12.  A turn leaves every row but its own alone: in the plugin table only
    the row under the account's cursor key can change, and in the quota table
    only the record of the account. *)
Theorem turn_leaves_other_rows_alone env agent s :
  (∀ k, k ≠ cursor_key agent →
        plugin_store (process_agent env agent s) !! k = plugin_store s !! k) ∧
  (∀ a, a ≠ agent_id agent →
        quota_store (process_agent env agent s) !! a = quota_store s !! a).
Proof.
  destruct (process_agent_shape env agent s)
    as (r & ps & qs & evs & _ & Hshape & ->). simpl.
  destruct Hshape as [| ? ? ? ? ? ? ? ? ? ? Haf]; [done|].
  inversion Haf; subst; split; intros x Hx;
    by rewrite ?lookup_insert_ne.
Qed.

Lemma turn_leaves_other_rows_alone_witness :
  quota_store (process_agent (Scenario.world Scenario.two_mentions)
                 Scenario.agentA Scenario.fresh) !! "C"
  = Some (Scenario.quota_of 0 0).
Proof.
  destruct (turn_leaves_other_rows_alone
              (Scenario.world Scenario.two_mentions) Scenario.agentA
              Scenario.fresh) as [_ Hq].
  rewrite (Hq "C"); [reflexivity|discriminate].
Defined.

(** X13.  A turn changes the account's cursor only by writing the newest id
    of its own answered fetch, and changes the account's quota record only
    by charging the record it loaded at the start, which then had quota
    left. *)
Theorem turn_changes_only_by_its_two_writes env agent s :
  (plugin_store (process_agent env agent s) = plugin_store s ∨
   ∃ c q mentions,
     EGetUsersMentions c q (inr mentions)
       ∈ events_since s (process_agent env agent s) ∧
     truthy_list (resp_data mentions) = true ∧
     plugin_store (process_agent env agent s)
     = <[cursor_key agent :=
           Some {[ "last_tweet_id" := resp_meta mentions !! "newest_id" ]}]>
         (plugin_store s) ∧
     cursor (process_agent env agent s) agent
     = resp_meta mentions !! "newest_id") ∧
  (quota_store (process_agent env agent s) = quota_store s ∨
   (quota_left (loaded_quota s (agent_id agent)) = true ∧
    (agent_body env agent s).1 = inr tt ∧
    quota_store (process_agent env agent s)
    = <[agent_id agent := consumed (loaded_quota s (agent_id agent))]>
        (quota_store s))).
Proof.
  destruct (turn_events env agent s)
    as (r0 & evs & Hr & Hevs & [(Hearly & Hps & Hqs)|Hfetched]).
  - split; by left.
  - destruct Hfetched
      as (config & me & mentions & rest & Hc & Ht & Hleft & -> & Haf).
    rewrite Hr, Hevs.
    assert (Hin : EGetUsersMentions (create_twitter_client config)
                    (fetch_query env agent s config me) (inr mentions)
                  ∈ (before_fetch agent s config me
                     ++ EGetUsersMentions (create_twitter_client config)
                          (fetch_query env agent s config me) (inr mentions)
                        :: rest) ++ handler_log agent r0).
    { rewrite !elem_of_app, elem_of_cons. auto. }
    inversion Haf; subst; settle_turn;
      (split;
       [first [ by left
              | right; eexists _, _, mentions;
                split; [exact Hin|]; split; [assumption|];
                split; [first [assumption | reflexivity]
                       |by eapply cursor_written] ]
       |first [ by left | right; by auto ]]).
Qed.

Lemma turn_changes_only_by_its_two_writes_example :
  cursor (process_agent (Scenario.world Scenario.no_marker) Scenario.agentA
            Scenario.with_cursor) Scenario.agentA = None.
Proof. vm_compute. reflexivity. Qed.

(** ** The whole tick *)

(** The quota table after a turn: as before, or with the record loaded at
    the start of the turn, which had quota left, charged once. *)
Lemma turn_quota_cases env agent s :
  quota_store (process_agent env agent s) = quota_store s ∨
  (quota_left (loaded_quota s (agent_id agent)) = true ∧
   quota_store (process_agent env agent s)
   = <[agent_id agent := consumed (loaded_quota s (agent_id agent))]>
       (quota_store s)).
Proof.
  destruct (process_agent_shape env agent s)
    as (r & ps & qs & evs & _ & Hshape & ->). simpl.
  destruct Hshape as [| ? ? ? ? ? ? ? ? ? Hleft Haf]; [by left|].
  inversion Haf; subst; auto.
Qed.

Lemma turn_trace env agent s :
  trace (process_agent env agent s)
  = trace s ++ events_since s (process_agent env agent s).
Proof.
  destruct (process_agent_trace env agent s) as (r & evs & H).
  unfold events_since. by rewrite H, drop_app_length.
Qed.

Lemma for_each_agent_events env agent rest s :
  events_since s (for_each_agent env (agent :: rest) s)
  = events_since s (process_agent env agent s)
    ++ events_since (process_agent env agent s)
         (for_each_agent env rest (process_agent env agent s)).
Proof.
  simpl.
  destruct (for_each_agent_trace env rest (process_agent env agent s))
    as [evs2 H2].
  rewrite (events_since_trans _ _ _ _ _ (turn_trace env agent s) H2).
  f_equal. unfold events_since. by rewrite H2, drop_app_length.
Qed.

(** X14.  In a tick over accounts with distinct ids every quota record is
    either left as it was or charged exactly once, and it is charged only for
    an account of the tick that had quota left when the tick began. *)
Theorem tick_charges_each_account_at_most_once env agents s a :
  NoDup (agent_id <$> agents) →
  quota_store (for_each_agent env agents s) !! a = quota_store s !! a ∨
  (a ∈ (agent_id <$> agents) ∧
   quota_left (loaded_quota s a) = true ∧
   quota_store (for_each_agent env agents s) !! a
   = Some (consumed (loaded_quota s a))).
Proof.
  revert s. induction agents as [|agent rest IH]; intros s Hnd; simpl.
  - by left.
  - rewrite fmap_cons in Hnd. apply NoDup_cons in Hnd as [Hfresh Hnd].
    destruct (IH (process_agent env agent s) Hnd) as [Hsame|Hcharged].
    + rewrite Hsame.
      destruct (turn_quota_cases env agent s) as [->|[Hleft ->]];
        [by left|].
      destruct (decide (a = agent_id agent)) as [->|Hne].
      * right. rewrite lookup_insert_eq. split; [|done].
        apply list_elem_of_here.
      * left. by rewrite lookup_insert_ne.
    + destruct Hcharged as (Hin & Hleft & Hq).
      assert (Hne : a ≠ agent_id agent) by (by intros ->).
      assert (Hload : loaded_quota (process_agent env agent s) a
                      = loaded_quota s a).
      { unfold loaded_quota.
        destruct (turn_quota_cases env agent s) as [->|[_ ->]]; [done|].
        by rewrite lookup_insert_ne. }
      right. rewrite <- Hload. split; [by apply list_elem_of_further|done].
Qed.

Lemma tick_charges_each_account_at_most_once_witness :
  quota_store
    (for_each_agent (Scenario.world Scenario.two_mentions)
       [Scenario.agentA; Scenario.agentB; Scenario.agentC] Scenario.fresh)
    !! "A"
  = Some (Scenario.quota_of 1 1).
Proof.
  destruct (tick_charges_each_account_at_most_once
              (Scenario.world Scenario.two_mentions)
              [Scenario.agentA; Scenario.agentB; Scenario.agentC]
              Scenario.fresh "A")
    as [Hsame|(_ & _ & Hq)].
  - vm_compute. repeat constructor; intros H; in_cases H.
  - exfalso. vm_compute in Hsame. discriminate Hsame.
  - rewrite Hq. reflexivity.
Defined.

(** X15.  A tick never pushes a counter past its limit: if every quota record
    is within its limits before the tick, every record is within its limits
    after it, whether the tick completes or its query for the agents
    raises. *)
Theorem tick_keeps_counters_within_limits env table s :
  (∀ a q, quota_store s !! a = Some q → within_limits q) →
  ∀ a q,
    quota_store (run_twitter_agents env table s).2 !! a = Some q →
    within_limits q.
Proof.
  assert (Hturn : ∀ agent s,
            (∀ a q, quota_store s !! a = Some q → within_limits q) →
            ∀ a q, quota_store (process_agent env agent s) !! a = Some q →
                   within_limits q).
  { intros agent s0 Hinv a q.
    destruct (turn_quota_cases env agent s0) as [->|[Hleft ->]];
      [apply Hinv|].
    destruct (decide (a = agent_id agent)) as [->|Hne].
    - rewrite lookup_insert_eq. intros [= <-].
      unfold quota_left in Hleft. apply andb_true_iff in Hleft as [Hd Ht].
      apply bool_decide_eq_true in Hd, Ht.
      unfold within_limits, consumed. simpl. lia.
    - rewrite lookup_insert_ne by done. apply Hinv. }
  assert (Hloop : ∀ agents s,
            (∀ a q, quota_store s !! a = Some q → within_limits q) →
            ∀ a q, quota_store (for_each_agent env agents s) !! a = Some q →
                   within_limits q).
  { induction agents as [|agent rest IH]; intros s0 Hinv; simpl;
      [exact Hinv|].
    apply IH. by apply Hturn. }
  intros Hinv. unfold run_twitter_agents, bind, select_agents, answered.
  destruct (db_fault env (trace s) DbSelectAgents); simpl; [exact Hinv|].
  apply Hloop. exact Hinv.
Qed.

Lemma tick_keeps_counters_within_limits_witness :
  within_limits (Scenario.quota_of 1 1).
Proof.
  apply (tick_keeps_counters_within_limits
           (Scenario.world Scenario.two_mentions)
           [Scenario.agentA; Scenario.agentB; Scenario.agentC]
           Scenario.fresh) with (a := "A").
  - intros a q Hq.
    apply (map_Forall_lookup_1 (λ _ q, within_limits q)
             (quota_store Scenario.fresh) a q); [|exact Hq].
    unfold Scenario.fresh. simpl.
    repeat (apply map_Forall_insert_2;
            [unfold within_limits; simpl; lia|]).
    apply map_Forall_empty.
  - vm_compute. reflexivity.
Defined.

(** X16.  The query for the agents runs outside the [try] block: when it
    raises, the exception leaves the tick, no account is processed and the
    only event of the tick is the failed query. *)
Theorem failed_agent_query_aborts_the_tick env table s e :
  (select_agents env table s).1 = inl e →
  run_twitter_agents env table s = (inl e, extend s [ESelectAgents (inl e)]).
Proof.
  unfold run_twitter_agents, bind, select_agents, answered. simpl.
  intros ->. reflexivity.
Qed.

Lemma failed_agent_query_aborts_the_tick_witness :
  (run_twitter_agents (Cases.broken_db Cases.is_select)
     [Scenario.agentA; Scenario.agentC] Scenario.fresh).1
  = inl "database is locked".
Proof.
  rewrite (failed_agent_query_aborts_the_tick
             (Cases.broken_db Cases.is_select)
             [Scenario.agentA; Scenario.agentC] Scenario.fresh
             "database is locked"); reflexivity.
Defined.

(** The calls of a run of the loop name accounts of its list only. *)
Lemma for_each_agent_calls env agents s ev a :
  ev ∈ events_since s (for_each_agent env agents s) →
  event_account ev = Some a →
  ∃ agent, agent ∈ agents ∧ agent_id agent = a.
Proof.
  revert s. induction agents as [|agent rest IH]; intros s Hin Ha.
  - simpl in Hin. unfold events_since in Hin. rewrite drop_all in Hin.
    by apply elem_of_nil in Hin.
  - rewrite for_each_agent_events in Hin.
    apply elem_of_app in Hin as [Hin|Hin].
    + exists agent. split; [apply list_elem_of_here|].
      pose proof (own_turn env agent s) as Hown.
      rewrite Forall_forall in Hown.
      destruct (Hown _ Hin) as [Hacc _]. symmetry. by apply Hacc.
    + destruct (IH _ Hin Ha) as (agent' & Hin' & Hid).
      exists agent'. split; [by apply list_elem_of_further|done].
Qed.

(** X17.  A tick touches selected accounts only: every call into the
    database or to the engine that names an account names one of the table
    that has twitter enabled and a configuration present.  An account with
    twitter switched off is not even looked up. *)
Theorem tick_touches_only_selected_agents env table s ev a :
  ev ∈ events_since s (run_twitter_agents env table s).2 →
  event_account ev = Some a →
  ∃ agent,
    agent ∈ table ∧ agent_id agent = a ∧
    twitter_enabled agent = true ∧ is_Some (twitter_config agent).
Proof.
  unfold run_twitter_agents, bind, select_agents, answered.
  destruct (db_fault env (trace s) DbSelectAgents) as [e|]; simpl.
  - rewrite record_extend, events_since_extend. intros Hin Ha.
    in_cases Hin. by subst.
  - set (agents := List.filter
                     (λ a, twitter_enabled a
                           && bool_decide (is_Some (twitter_config a)))
                     table).
    set (s1 := record (ESelectAgents (inr agents)) s).
    intros Hin Ha.
    destruct (for_each_agent_trace env agents s1) as [evs2 H2].
    rewrite (events_since_trans s s1 _ [ESelectAgents (inr agents)] evs2
               eq_refl H2) in Hin.
    apply elem_of_cons in Hin as [->|Hin]; [discriminate|].
    assert (Hin2 : ev ∈ events_since s1 (for_each_agent env agents s1)).
    { unfold events_since. by rewrite H2, drop_app_length. }
    destruct (for_each_agent_calls _ _ _ _ _ Hin2 Ha)
      as (agent & Hsel & Hid).
    exists agent. subst agents.
    apply list_elem_of_In, List.filter_In in Hsel as [Htab Hok].
    apply andb_true_iff in Hok as [Hen Hcfg].
    apply bool_decide_eq_true in Hcfg.
    split; [by apply list_elem_of_In|]. auto.
Qed.

Lemma tick_touches_only_selected_agents_witness :
  ∃ agent,
    agent ∈ [Scenario.agentA; Cases.agentE] ∧ agent_id agent = "A" ∧
    twitter_enabled agent = true ∧ is_Some (twitter_config agent).
Proof.
  apply (tick_touches_only_selected_agents
           (Scenario.world Scenario.two_mentions)
           [Scenario.agentA; Cases.agentE] Cases.fresh
           (EHasTwitterQuota "A" (inr true)) "A").
  - vm_compute. do 2 apply list_elem_of_further. apply list_elem_of_here.
  - reflexivity.
Defined.

(** The account with twitter switched off leaves no call in the tick. *)
Example disabled_account_is_not_looked_up :
  List.filter
    (λ ev, bool_decide (event_account ev = Some "E"))
    (events_since Cases.fresh
       (run_twitter_agents (Scenario.world Scenario.two_mentions)
          [Scenario.agentA; Cases.agentE] Cases.fresh).2) = [].
Proof. vm_compute. reflexivity. Qed.
